(** * simple-llama: answer extraction, majority vote, retrying model client
      and benchmark runner

    A shallow embedding of [evaluate.py], [model.py] and [benchmark.py],
    followed by the properties of the evaluation pipeline.

    Python values are modelled as follows.
    - [str] is a list of Unicode code points ([N]).
    - [int] is [Z]; [range(n)] is empty for [n <= 0].
    - exceptions are an inductive type; a call either returns or raises.
    - the logger, standard output and the remote model backend are the
      only effects: they live in an explicit [World] that is threaded
      through every effectful function and survives a raised exception. *)

From Stdlib Require Import List ZArith NArith QArith Bool String Ascii Lia.
From Stdlib Require Import Permutation.
From Stdlib Require Import PrimFloat.
From Stdlib Require Uint63 DecimalString FloatOps SpecFloat.
Import ListNotations.

Local Open Scope Z_scope.

(* ================================================================== *)
(** * Python strings *)
(* ================================================================== *)

Definition codepoint := N.
Definition str := list codepoint.

(** An ASCII literal of the source as a Python string. *)
Definition py (s : string) : str := map N_of_ascii (list_ascii_of_string s).

Fixpoint str_eqb (a b : str) : bool :=
  match a, b with
  | [], [] => true
  | x :: a', y :: b' => N.eqb x y && str_eqb a' b'
  | _, _ => false
  end.

(** [str.isspace] on one code point; the same set is matched by [\s] in a
    [str] pattern and removed by [str.strip()]. *)
Definition isspace (c : codepoint) : bool :=
  ((9 <=? c) && (c <=? 13) || (28 <=? c) && (c <=? 32)
   || (c =? 133) || (c =? 160) || (c =? 5760)
   || (8192 <=? c) && (c <=? 8202)
   || (c =? 8232) || (c =? 8233) || (c =? 8239) || (c =? 8287)
   || (c =? 12288))%N.

Fixpoint lstrip (s : str) : str :=
  match s with
  | c :: s' => if isspace c then lstrip s' else s
  | [] => []
  end.

Definition rstrip (s : str) : str := rev (lstrip (rev s)).

(** [s.strip()] *)
Definition strip (s : str) : str := rstrip (lstrip s).

(** Simple one-to-one case mappings of the Unicode database, as used by
    the [re] engine.  Only the code points that a mapping sends to, or
    takes from, the ASCII letters and their two case-equivalents
    (U+0131 dotless i, U+017F long s) are listed; every other code point
    is left fixed here, which cannot change how a pattern written in
    ASCII matches. *)
Definition unicode_tolower (c : codepoint) : codepoint :=
  (if (65 <=? c) && (c <=? 90) then c + 32
   else if c =? 304 then 105        (* U+0130 -> i *)
   else if c =? 8490 then 107       (* U+212A KELVIN SIGN -> k *)
   else c)%N.

Definition unicode_toupper (c : codepoint) : codepoint :=
  (if (97 <=? c) && (c <=? 122) then c - 32
   else if c =? 305 then 73         (* U+0131 -> I *)
   else if c =? 383 then 83         (* U+017F -> S *)
   else c)%N.

Definition unicode_iscased (c : codepoint) : bool :=
  negb (c =? unicode_tolower c)%N || negb (c =? unicode_toupper c)%N.

(** [s.upper()].  The full mapping of [str.upper] can lengthen a string
    (U+00DF); it agrees with the simple mapping on every code point
    listed in [unicode_toupper]. *)
Definition upper (s : str) : str := map unicode_toupper s.

(* ================================================================== *)
(** * The fragment of [re] used by [extract_single_answer] *)
(* ================================================================== *)

Module Re.

Inductive charset : Type :=
| Literal (c : codepoint)          (* a character of the pattern *)
| Range (lo hi : codepoint)        (* [lo-hi] *)
| Whitespace.                      (* \s *)

Inductive node : Type :=
| One (cs : charset)               (* cs *)
| Star (cs : charset)              (* cs*, greedy *)
| Group (cs : charset).            (* (cs), a capturing group *)

Definition pattern := list node.

(** The lower-case characters that share an upper-case character
    ([_ignorecase_fixes] of the engine), restricted to Latin. *)
Definition ignorecase_fixes (lo : codepoint) : list codepoint :=
  (if lo =? 105 then [305]
   else if lo =? 305 then [105]
   else if lo =? 115 then [383]
   else if lo =? 383 then [115]
   else [])%N.

(** One pattern character against one subject character. *)
Definition literal_matches (ignorecase : bool) (p c : codepoint) : bool :=
  if ignorecase && unicode_iscased p then
    let lo := unicode_tolower p in
    existsb (N.eqb (unicode_tolower c)) (lo :: ignorecase_fixes lo)
  else N.eqb c p.

Definition codepoints_between (lo hi : codepoint) : list codepoint :=
  map N.of_nat (seq (N.to_nat lo) (N.to_nat (hi + 1 - lo))).

Definition charset_matches (ignorecase : bool) (cs : charset)
    (c : codepoint) : bool :=
  match cs with
  | Literal p => literal_matches ignorecase p c
  | Range lo hi =>
      existsb (fun p => literal_matches ignorecase p c)
              (codepoints_between lo hi)
  | Whitespace => isspace c
  end.

(** Captured groups of a match, in order: [group(1)] is the head. *)
Definition groups := list str.

(** Greedy repetition with backtracking: take one more character when
    it is accepted and the rest then matches, else stop here. *)
Fixpoint match_star (accepts : codepoint -> bool)
    (k : str -> option groups) (s : str) : option groups :=
  match s with
  | c :: s' =>
      if accepts c then
        match match_star accepts k s' with
        | Some g => Some g
        | None => k s
        end
      else k s
  | [] => k s
  end.

(** Match the pattern at the start of the subject. *)
Fixpoint match_here (ignorecase : bool) (re : pattern)
    : str -> option groups :=
  match re with
  | [] => fun _ => Some []
  | One cs :: re' => fun s =>
      match s with
      | c :: s' =>
          if charset_matches ignorecase cs c
          then match_here ignorecase re' s' else None
      | [] => None
      end
  | Star cs :: re' =>
      match_star (charset_matches ignorecase cs)
                 (match_here ignorecase re')
  | Group cs :: re' => fun s =>
      match s with
      | c :: s' =>
          if charset_matches ignorecase cs c
          then option_map (cons [c]) (match_here ignorecase re' s')
          else None
      | [] => None
      end
  end.

(** [re.search]: the match at the leftmost position that has one. *)
Fixpoint search (ignorecase : bool) (re : pattern) (s : str)
    : option groups :=
  match match_here ignorecase re s with
  | Some g => Some g
  | None =>
      match s with
      | _ :: s' => search ignorecase re s'
      | [] => None
      end
  end.

(** [m.group(1)] of a match with at least one group. *)
Definition group1 (g : groups) : str := hd [] g.

End Re.

(* ================================================================== *)
(** * Exceptions and results *)
(* ================================================================== *)

#[warnings="-register-all"] Inductive exn : Type :=
| AnswerExtractionError (msg : string)
| ValueError (msg : string)
| ZeroDivisionError (msg : string)
| EmptyResponseError (msg : string)
| MaxRetriesExceededError (msg : string) (cause : option exn)
| BackendException (msg : string)   (* any [Exception] raised by [chat] *)
| KeyboardInterrupt.                (* a [BaseException], not an [Exception] *)

(** [isinstance(e, Exception)] *)
Definition is_Exception (e : exn) : bool :=
  match e with
  | KeyboardInterrupt => false
  | _ => true
  end.

(** [isinstance(e, AnswerExtractionError)] *)
Definition is_AnswerExtractionError (e : exn) : bool :=
  match e with
  | AnswerExtractionError _ => true
  | _ => false
  end.

(** [str(e)] *)
Definition exn_message (e : exn) : string :=
  match e with
  | AnswerExtractionError m | ValueError m | ZeroDivisionError m
  | EmptyResponseError m | MaxRetriesExceededError m _
  | BackendException m => m
  | KeyboardInterrupt => ""%string
  end.

Inductive Result (A : Type) : Type :=
| Return (a : A)
| Raise (e : exn).
Arguments Return {A} a.
Arguments Raise {A} e.

(* ================================================================== *)
(** * evaluate.py: extraction of one answer *)
(* ================================================================== *)

(** [r"Final Answer:\s*([A-F])"] *)
Definition FINAL_ANSWER : Re.pattern :=
  map (fun c => Re.One (Re.Literal c)) (py "Final Answer:")
  ++ [Re.Star Re.Whitespace; Re.Group (Re.Range 65%N 70%N)].

Definition extract_single_answer (output : str) : Result str :=
  match Re.search true FINAL_ANSWER (strip output) with
  | None => Raise (AnswerExtractionError "No answer found in model output")
  | Some m => Return (upper (Re.group1 m))
  end.

(* ================================================================== *)
(** * Effects: the logger, standard output and the model backend *)
(* ================================================================== *)

(** Python [float] is IEEE 754 binary64: the primitive [float]. *)

Record ChatOptions : Type := {
  opt_temperature : float;
  opt_num_predict : Z;
  opt_top_p : float
}.

Record ChatMessage : Type := { msg_role : str; msg_content : str }.

Record ChatRequest : Type := {
  req_model : str;
  req_messages : list ChatMessage;
  req_options : ChatOptions
}.

(** What [chat] hands back: [response.get("message", {}).get("content")]
    reads an optional ["message"] with an optional ["content"]. *)
Record ResponseMessage : Type := { resp_content : option str }.
Record ChatResponse : Type := { resp_message : option ResponseMessage }.

Inductive ChatOutcome : Type :=
| ChatReturns (response : ChatResponse)
| ChatRaises (e : exn).

Inductive LogLevel : Type := DEBUG | INFO | WARNING | ERROR | CRITICAL.

(** One constructor per logging call of the source, carrying the values
    its f-string interpolates. *)
Inductive LogMessage : Type :=
| EmptyOrInvalidResponse (response : ChatResponse)
| AttemptFailed (attempt max_retries : Z) (error : string)
| MaxRetriesExceeded
| ExtractionFailed (output : str)
| TestingQuestion (question_id : Z)
| ResponseReceived (r : Z) (response : str)
| MajorityVote (pass : bool)
| CorrectAnswer (answer : str)
| Answers (answers : list str)
| FinalScore (final_score : string).   (* the score, formatted [.1f] *)

Record World : Type := {
  requests : list ChatRequest;         (* requests sent, oldest first *)
  log : list (LogLevel * LogMessage);  (* records emitted, oldest first *)
  stdout : list LogMessage             (* lines printed, oldest first *)
}.

Definition initial_world : World :=
  {| requests := []; log := []; stdout := [] |}.

(** A computation reads and updates the world and returns or raises. *)
Definition M (A : Type) : Type := World -> Result A * World.

Definition ret {A} (a : A) : M A := fun w => (Return a, w).

Definition raise {A} (e : exn) : M A := fun w => (Raise e, w).

Definition bind {A B} (m : M A) (f : A -> M B) : M B :=
  fun w =>
    match m w with
    | (Return a, w') => f a w'
    | (Raise e, w') => (Raise e, w')
    end.

(** [try: m  except <class> as e: handler e] *)
Definition try_except {A} (m : M A) (class : exn -> bool)
    (handler : exn -> M A) : M A :=
  fun w =>
    match m w with
    | (Return a, w') => (Return a, w')
    | (Raise e, w') => if class e then handler e w' else (Raise e, w')
    end.

(** A pure call that may raise. *)
Definition lift {A} (r : Result A) : M A := fun w => (r, w).

Declare Scope py_scope.
Delimit Scope py_scope with py.
Notation "x <- m ;; k" := (bind m (fun x => k))
  (at level 61, m at next level, right associativity) : py_scope.
Notation "m ;; k" := (bind m (fun _ => k))
  (at level 61, right associativity) : py_scope.
Local Open Scope py_scope.

Definition logging (level : LogLevel) (msg : LogMessage) : M unit :=
  fun w => (Return tt, {| requests := requests w;
                          log := log w ++ [(level, msg)];
                          stdout := stdout w |}).

Definition print (msg : LogMessage) : M unit :=
  fun w => (Return tt, {| requests := requests w;
                          log := log w;
                          stdout := stdout w ++ [msg] |}).

(** [range(n)] *)
Definition range (n : Z) : list Z := map Z.of_nat (seq 0 (Z.to_nat n)).

(** [str(n)] for an [int]. *)
Definition str_of_int (n : Z) : string :=
  DecimalString.NilZero.string_of_int (Z.to_int n).

(* ================================================================== *)
(** * evaluate.py: batch extraction and the vote *)
(* ================================================================== *)

Fixpoint extract_multiple_answers_loop (outputs : list str)
    (valid_answers : list str) : M (list str) :=
  match outputs with
  | [] => ret valid_answers
  | output :: rest =>
      valid_answers' <-
        try_except
          (answer <- lift (extract_single_answer output) ;;
           ret (valid_answers ++ [answer]))
          is_AnswerExtractionError
          (fun _ => logging WARNING (ExtractionFailed output) ;;
                    ret valid_answers) ;;
      extract_multiple_answers_loop rest valid_answers'
  end.

Definition extract_multiple_answers (outputs : list str) : M (list str) :=
  extract_multiple_answers_loop outputs [].

(** [answers.count(x)] *)
Definition count (answers : list str) (x : str) : Z :=
  Z.of_nat (List.length (filter (str_eqb x) answers)).

(** [len(answers)] *)
Definition len {A} (l : list A) : Z := Z.of_nat (List.length l).

(** [n > x] for an [int] [n] and the quotient [x] of two [int]s.  Python
    compares an [int] with a [float] exactly, and the only quotient taken
    here is by 2, which binary64 represents exactly for every list
    length below 2^53: the quotient is kept as an exact rational. *)
Definition int_gt_quotient (n : Z) (x : Q) : bool :=
  negb (Qle_bool (inject_Z n) x).

Definition calculate_majority_vote (answers : list str)
    (correct_answer : str) : bool :=
  match answers with
  | [] => false
  | _ => int_gt_quotient (count answers correct_answer)
                         (inject_Z (len answers) / inject_Z 2)
  end.

Definition eval_majority_vote (model_outputs : list str) (answer : str)
    : M (bool * list str) :=
  extracted_answers <- extract_multiple_answers model_outputs ;;
  match extracted_answers with
  | [] => raise (ValueError
            "Failed to extract any valid answers from model outputs")
  | _ =>
      let is_majority := calculate_majority_vote extracted_answers answer in
      ret (is_majority, extracted_answers)
  end.

(* ================================================================== *)
(** * model.py: the retrying client *)
(* ================================================================== *)

Record ModelConfig : Type := {
  model_name : str;
  temperature : float;
  top_p : float;
  max_tokens : Z;
  max_retries : Z
}.

Definition _create_chat_options (config : ModelConfig) : ChatOptions :=
  {| opt_temperature := temperature config;
     opt_num_predict := max_tokens config;
     opt_top_p := top_p config |}.

Definition _create_messages (prompt : str) : list ChatMessage :=
  [ {| msg_role := py "user"; msg_content := prompt |} ].

(** [not content] holds when the content is absent or empty. *)
Definition _validate_response (response : ChatResponse) : M str :=
  let content :=
    match resp_message response with
    | Some m => resp_content m
    | None => None
    end in
  match content with
  | Some (c :: s) => ret (c :: s)
  | _ =>
      logging ERROR (EmptyOrInvalidResponse response) ;;
      raise (EmptyResponseError "No content in response")
  end.

Section Backend.

(** The remote service: what the [n]-th call of [chat] (counting from 0)
    does when it is sent a request. *)
Variable chat : nat -> ChatRequest -> ChatOutcome.

Definition call_chat (request : ChatRequest) : M ChatResponse :=
  fun w =>
    let w' := {| requests := requests w ++ [request];
                 log := log w; stdout := stdout w |} in
    match chat (List.length (requests w)) request with
    | ChatReturns response => (Return response, w')
    | ChatRaises e => (Raise e, w')
    end.

(** The arguments [_make_chat_request] passes to [chat]. *)
Definition chat_arguments (config : ModelConfig) (prompt : str)
    : ChatRequest :=
  {| req_model := model_name config;
     req_messages := _create_messages prompt;
     req_options := _create_chat_options config |}.

Definition _make_chat_request (config : ModelConfig) (prompt : str)
    : M str :=
  response <- call_chat (chat_arguments config prompt) ;;
  _validate_response response.

(** The body of [predict]'s [for attempt in range(max_retries)]; the
    empty list is the statement after the loop. *)
Fixpoint predict_loop (config : ModelConfig) (prompt : str)
    (attempts : list Z) : M str :=
  match attempts with
  | [] =>
      raise (MaxRetriesExceededError
               "Failed to get response after max retries" None)
  | attempt :: rest =>
      try_except
        (_make_chat_request config prompt)
        is_Exception
        (fun e =>
           logging WARNING
             (AttemptFailed (attempt + 1) (max_retries config)
                            (exn_message e)) ;;
           if attempt =? max_retries config - 1 then
             logging ERROR MaxRetriesExceeded ;;
             raise (MaxRetriesExceededError
                      ("Failed to get response after "
                       ++ str_of_int (max_retries config) ++ " retries")
                      (Some e))
           else predict_loop config prompt rest)
  end.

Definition predict (config : ModelConfig) (prompt : str) : M str :=
  predict_loop config prompt (range (max_retries config)).

(* ================================================================== *)
(** * benchmark.py: the runner *)
(* ================================================================== *)

Record Question : Type := {
  question_id : Z;
  prompt : str;
  answer : str
}.

Record Benchmark : Type := {
  model : ModelConfig;
  num_responses : Z;
  benchmark_data : list Question
}.

Fixpoint _collect_responses_loop (self : Benchmark) (question : Question)
    (rs : list Z) (responses : list str) : M (list str) :=
  match rs with
  | [] => ret responses
  | r :: rest =>
      response <- predict (model self) (prompt question) ;;
      logging DEBUG (ResponseReceived (r + 1) response) ;;
      _collect_responses_loop self question rest (responses ++ [response])
  end.

Definition _collect_responses (self : Benchmark) (question : Question)
    : M (list str) :=
  logging INFO (TestingQuestion (question_id question)) ;;
  _collect_responses_loop self question (range (num_responses self)) [].

Definition _evaluate_responses (responses : list str)
    (question : Question) : M Z :=
  r <- eval_majority_vote responses (answer question) ;;
  let '(result, answers) := r in
  logging INFO (MajorityVote result) ;;
  logging INFO (CorrectAnswer (answer question)) ;;
  logging DEBUG (Answers answers) ;;
  ret (if result then 1 else 0).

Definition _process_question (self : Benchmark) (question : Question)
    : M Z :=
  responses <- _collect_responses self question ;;
  _evaluate_responses responses question.

(** [sum(self._process_question(q) for q in questions)], with the running
    total of the builtin. *)
Fixpoint sum_scores (self : Benchmark) (questions : list Question)
    (total : Z) : M Z :=
  match questions with
  | [] => ret total
  | question :: rest =>
      score <- _process_question self question ;;
      sum_scores self rest (total + score)
  end.

(** [float(n)] for a non-negative [int] below 2^53 (a count of list
    elements), where the conversion is exact. *)
Definition float_of_int (n : Z) : float :=
  PrimFloat.of_uint63 (Uint63.of_Z n).

(** [a / b] on two [int]s: the binary64 quotient, or [ZeroDivisionError]. *)
Definition int_truediv (a b : Z) : Result float :=
  if b =? 0 then Raise (ZeroDivisionError "division by zero")
  else Return (PrimFloat.div (float_of_int a) (float_of_int b)).

(** The integer nearest to [x * 10], ties to the even one, for the
    positive binary64 value [x = m * 2^e]. *)
Definition tenths (m : positive) (e : Z) : Z :=
  if 0 <=? e then 10 * Z.pos m * 2 ^ e
  else
    let d := 2 ^ (- e) in
    let q := (10 * Z.pos m) / d in
    let r := (10 * Z.pos m) mod d in
    match 2 * r ?= d with
    | Lt => q
    | Gt => q + 1
    | Eq => if Z.even q then q else q + 1
    end.

(** A number of tenths written with one decimal. *)
Definition fixed_1 (t : Z) : string :=
  str_of_int (t / 10) ++ "." ++ str_of_int (t mod 10).

(** [f"{x:.1f}"]: the exact value of the float, correctly rounded to
    one decimal. *)
Definition format_1f (x : float) : string :=
  match FloatOps.Prim2SF x with
  | SpecFloat.S754_nan => "nan"
  | SpecFloat.S754_infinity s => if s then "-inf" else "inf"
  | SpecFloat.S754_zero s => if s then "-0.0" else "0.0"
  | SpecFloat.S754_finite s m e =>
      (if s then "-" else "") ++ fixed_1 (tenths m e)
  end.

Definition run (self : Benchmark) : M float :=
  total_score <- sum_scores self (benchmark_data self) 0 ;;
  quotient <- lift (int_truediv total_score (len (benchmark_data self))) ;;
  let final_score := PrimFloat.mul quotient (float_of_int 100) in
  logging INFO (FinalScore (format_1f final_score)) ;;
  print (FinalScore (format_1f final_score)) ;;
  ret final_score.

End Backend.

(* ================================================================== *)
(** * Vocabulary of the properties *)
(* ================================================================== *)

(** The letters an answer may be written with: A-F and a-f. *)
Definition answer_letter (c : codepoint) : bool :=
  ((65 <=? c) && (c <=? 70) || (97 <=? c) && (c <=? 102))%N.

(** A subject character that [re.IGNORECASE] accepts for a pattern
    character. *)
Definition stands_for (p c : codepoint) : Prop :=
  Re.literal_matches true p c = true.

(** The code points [re.IGNORECASE] accepts for an ASCII pattern
    character, as the documentation of [re] lists them: both cases of a
    letter, and U+0130, U+0131, U+017F and U+212A next to i, s and k. *)
Definition caseless_variants (p : codepoint) : list codepoint :=
  (if (p =? 73) || (p =? 105) then [73; 105; 304; 305]
   else if (p =? 83) || (p =? 115) then [83; 115; 383]
   else if (p =? 75) || (p =? 107) then [75; 107; 8490]
   else if (65 <=? p) && (p <=? 90) then [p; p + 32]
   else if (97 <=? p) && (p <=? 122) then [p - 32; p]
   else [p])%N.

(** [text] holds, [n] characters in, the marker "Final Answer:" in any
    letter case, then any run of whitespace, then the answer [letter]. *)
Inductive occurs_at (text : str) (n : nat) (letter : codepoint) : Prop :=
| occurrence (pre marker spaces post : str) :
    text = pre ++ marker ++ spaces ++ letter :: post ->
    List.length pre = n ->
    Forall2 stands_for (py "Final Answer:") marker ->
    Forall (fun c => isspace c = true) spaces ->
    answer_letter letter = true ->
    occurs_at text n letter.

(** The first character after the leading whitespace, when it is an
    answer letter. *)
Definition letter_after_spaces (s : str) : option codepoint :=
  match lstrip s with
  | c :: _ => if answer_letter c then Some c else None
  | [] => None
  end.

Definition ANSWER_LETTERS : list str :=
  map py ["A"; "B"; "C"; "D"; "E"; "F"]%string.

(** The answers of the outputs that extract, in the order of the
    outputs. *)
Definition successes (outputs : list str) : list str :=
  flat_map (fun output =>
              match extract_single_answer output with
              | Return answer => [answer]
              | Raise _ => []
              end) outputs.

(** Two characters that are equal, or the two cases of one ASCII
    letter. *)
Definition same_up_to_case (c c' : codepoint) : Prop :=
  (c' = c
   \/ (65 <= c <= 90 /\ c' = c + 32)
   \/ (97 <= c <= 122 /\ c' = c - 32))%N.

(** Two results of the engine with the same groups up to case. *)
Definition same_match (m m' : option Re.groups) : Prop :=
  match m, m' with
  | None, None => True
  | Some g, Some g' => Forall2 (Forall2 same_up_to_case) g g'
  | _, _ => False
  end.

(** Whether an output holds an answer. *)
Definition extracts (output : str) : bool :=
  match extract_single_answer output with
  | Return _ => true
  | Raise _ => false
  end.

(** The outputs that hold no answer, in the order of the outputs. *)
Definition dropped (outputs : list str) : list str :=
  filter (fun output => negb (extracts output)) outputs.

Definition str_eq_dec : forall a b : str, {a = b} + {a <> b} :=
  list_eq_dec N.eq_dec.

(** The request number [n] (counting from 0 over the whole run) fails
    with [e]. *)
Definition request_fails (chat : nat -> ChatRequest -> ChatOutcome)
    (config : ModelConfig) (prompt : str) (n : nat) (e : exn) : Prop :=
  forall w, List.length (requests w) = n ->
            fst (_make_chat_request chat config prompt w) = Raise e.

(** The request number [n] (counting from 0 over the whole run) has the
    outcome [r]. *)
Definition request_gives (chat : nat -> ChatRequest -> ChatOutcome)
    (config : ModelConfig) (prompt : str) (n : nat) (r : Result str)
    : Prop :=
  forall w, List.length (requests w) = n ->
            fst (_make_chat_request chat config prompt w) = r.

(** The warnings of [predict] about failed attempts in a log: attempt
    number, [max_retries] and the text of the error. *)
Definition attempt_warnings (records : list (LogLevel * LogMessage))
    : list (Z * Z * string) :=
  flat_map (fun record =>
              match record with
              | (WARNING, AttemptFailed attempt retries error) =>
                  [(attempt, retries, error)]
              | _ => []
              end) records.

(** The world after a request that failed and the warning about it. *)
Definition after_failed_attempt (chat : nat -> ChatRequest -> ChatOutcome)
    (config : ModelConfig) (prompt : str) (attempt : Z) (e : exn)
    (w : World) : World :=
  snd (logging WARNING
         (AttemptFailed (attempt + 1) (max_retries config) (exn_message e))
         (snd (_make_chat_request chat config prompt w))).

(** The outcome of the votes of a list of questions processed in order
    from the world [w], each vote returning, and the world they leave. *)
Inductive question_votes (chat : nat -> ChatRequest -> ChatOutcome)
    (self : Benchmark)
    : World -> list Question -> list bool -> World -> Prop :=
| votes_nil (w : World) : question_votes chat self w [] [] w
| votes_cons (w : World) (question : Question) (questions : list Question)
    (responses : list str) (w1 : World) (result : bool)
    (answers : list str) (votes : list bool) (w' : World) :
    _collect_responses chat self question w = (Return responses, w1) ->
    fst (eval_majority_vote responses (answer question) w1)
    = Return (result, answers) ->
    question_votes chat self
      (snd (_process_question chat self question w)) questions votes w' ->
    question_votes chat self w (question :: questions) (result :: votes) w'.

(** The number of votes that passed. *)
Definition passed (votes : list bool) : Z :=
  Z.of_nat (List.length (filter (fun vote => vote) votes)).

(** [(passes / total) * 100] in binary64. *)
Definition percentage (passes total : Z) : float :=
  (float_of_int passes / float_of_int total * float_of_int 100)%float.

(* ================================================================== *)
(** * Sample backends and benchmarks *)
(* ================================================================== *)

(** Backends and configurations to run the client on. *)
Definition refusing_chat : nat -> ChatRequest -> ChatOutcome :=
  fun _ _ => ChatRaises (BackendException "connection refused").

Definition scripted_chat (script : list ChatOutcome)
    : nat -> ChatRequest -> ChatOutcome :=
  fun n _ => nth n script (ChatRaises (BackendException "connection refused")).

Definition reply (content : str) : ChatOutcome :=
  ChatReturns {| resp_message := Some {| resp_content := Some content |} |}.

#[warnings="-inexact-float"] Definition llama (retries : Z) : ModelConfig :=
  {| model_name := py "llama3.1";
     temperature := 0.7%float;
     top_p := 0.95%float;
     max_tokens := 2048;
     max_retries := retries |}.

(** A two-question benchmark with three responses per question, and a
    backend whose six replies make the first vote pass (B, B, A against
    B) and the second fail (A, nothing, C against C: one of two). *)
Definition first_question : Question :=
  {| question_id := 1; prompt := py "First?"; answer := py "B" |}.

Definition second_question : Question :=
  {| question_id := 2; prompt := py "Second?"; answer := py "C" |}.

Definition two_questions : Benchmark :=
  {| model := llama 3;
     num_responses := 3;
     benchmark_data := [first_question; second_question] |}.

Definition six_replies : nat -> ChatRequest -> ChatOutcome :=
  scripted_chat
    [ reply (py "Final Answer: B"); reply (py "I say. Final answer: b");
      reply (py "Final Answer: A");
      reply (py "Final Answer: A"); reply (py "C, I think");
      reply (py "Final Answer: C") ].

Definition one_question : Benchmark :=
  {| model := llama 3; num_responses := 3;
     benchmark_data := [first_question] |}.

Definition third_question : Question :=
  {| question_id := 3; prompt := py "Third?"; answer := py "D" |}.

(** Three questions with one response each, and a backend whose three
    replies make two of the votes pass. *)
Definition three_questions : Benchmark :=
  {| model := llama 3; num_responses := 1;
     benchmark_data := [first_question; second_question; third_question] |}.

Definition one_reply_each : nat -> ChatRequest -> ChatOutcome :=
  scripted_chat
    [ reply (py "Final Answer: B"); reply (py "Final Answer: C");
      reply (py "Final Answer: A") ].

(** A backend that times out, then answers nothing, then answers. *)
Definition third_time_lucky : nat -> ChatRequest -> ChatOutcome :=
  scripted_chat
    [ ChatRaises (BackendException "timed out");
      reply [];
      reply (py "Final Answer: D") ].

(** The same benchmark with a backend whose replies to the second
    question hold no answer. *)
Definition three_replies_then_chatter : nat -> ChatRequest -> ChatOutcome :=
  scripted_chat
    [ reply (py "Final Answer: B"); reply (py "Final Answer: B");
      reply (py "Final Answer: A");
      reply (py "A or C"); reply (py "C, I think");
      reply (py "Answer: C") ].

(* ================================================================== *)
(** * Proof automation *)
(* ================================================================== *)

Ltac bool_to_prop :=
  repeat (rewrite ?orb_true_iff, ?andb_true_iff, ?negb_true_iff,
            ?orb_false_iff, ?andb_false_iff, ?negb_false_iff,
            ?N.eqb_eq, ?N.eqb_neq, ?N.leb_le, ?N.leb_gt in *).

Ltac compute_closed t :=
  let v := eval vm_compute in t in change t with v.

Ltac step_monad :=
  unfold bind, ret, raise, lift, try_except, logging, print; simpl.

(* ================================================================== *)
(** * Sample runs *)
(* ================================================================== *)

Example extract_plain :
  extract_single_answer (py "I think so. Final Answer: c.") = Return (py "C").
Proof. reflexivity. Qed.

Example extract_none :
  extract_single_answer (py "The answer is B")
  = Raise (AnswerExtractionError "No answer found in model output").
Proof. reflexivity. Qed.

Example extract_first_of_two :
  extract_single_answer (py "Final Answer: A Final Answer: B")
  = Return (py "A").
Proof. reflexivity. Qed.

Example extract_dotless_i :
  extract_single_answer ([70; 305] ++ py "nal Answer: b")%N = Return (py "B").
Proof. reflexivity. Qed.

Example extract_across_lines :
  extract_single_answer (py "  FINAL ANSWER:" ++ [10; 9; 160] ++ py "d  ")%N
  = Return (py "D").
Proof. reflexivity. Qed.

Example extract_letter_of_next_word :
  extract_single_answer (py "Final Answer: Final Answer: B") = Return (py "F").
Proof. reflexivity. Qed.

Example extract_other_letter :
  extract_single_answer (py "Final Answer: G")
  = Raise (AnswerExtractionError "No answer found in model output").
Proof. reflexivity. Qed.

Example batch_drops_and_logs :
  extract_multiple_answers
    [py "Final Answer: A"; py "no idea"; py "final answer:c"] initial_world
  = (Return [py "A"; py "C"],
     {| requests := [];
        log := [(WARNING, ExtractionFailed (py "no idea"))];
        stdout := [] |}).
Proof. reflexivity. Qed.

Example predict_third_time_lucky :
  let '(result, w) :=
    predict third_time_lucky (llama 3) (py "Which one?") initial_world in
  result = Return (py "Final Answer: D")
  /\ List.length (requests w) = 3%nat
  /\ map fst (log w) = [WARNING; ERROR; WARNING].
Proof. repeat split. Qed.

Example predict_gives_up_after_two :
  fst (predict third_time_lucky (llama 2) (py "Which one?") initial_world)
  = Raise (MaxRetriesExceededError
             "Failed to get response after 2 retries"
             (Some (EmptyResponseError "No content in response"))).
Proof. reflexivity. Qed.

Example predict_interrupted :
  predict (scripted_chat [ChatRaises KeyboardInterrupt]) (llama 3)
          (py "Which one?") initial_world
  = (Raise KeyboardInterrupt,
     {| requests := [chat_arguments (llama 3) (py "Which one?")];
        log := []; stdout := [] |}).
Proof. reflexivity. Qed.

Example run_one_question :
  fst (run six_replies one_question initial_world) = Return 100%float.
Proof. reflexivity. Qed.

Example run_two_questions_prints :
  stdout (snd (run six_replies two_questions initial_world))
  = [FinalScore "50.0"].
Proof. reflexivity. Qed.

#[warnings="-inexact-float"] Example run_three_questions :
  let '(result, w) := run one_reply_each three_questions initial_world in
  result = Return 66.66666666666666%float
  /\ stdout w = [FinalScore "66.7"]
  /\ last (log w) (DEBUG, MaxRetriesExceeded) = (INFO, FinalScore "66.7").
Proof. vm_compute. repeat split. Qed.

(** [.1f] rounds the exact binary value, ties to even. *)
#[warnings="-inexact-float"] Example format_1f_samples :
  map format_1f
    [0; 100; 0.25; 0.75; 0.35; 0.05; 99.95; 33.33333333333333;
     (-2.5); (-0.01); 12345.678; infinity; nan]%float
  = ["0.0"; "100.0"; "0.2"; "0.8"; "0.3"; "0.1"; "100.0"; "33.3";
     "-2.5"; "-0.0"; "12345.7"; "inf"; "nan"]%string.
Proof. vm_compute. reflexivity. Qed.

(** The exact quotient kept by [int_gt_quotient] decides the vote as the
    binary64 quotient does: checked for every list of up to 256 answers
    and every count. *)
Example vote_agrees_with_binary64 :
  forallb (fun n =>
    forallb (fun k =>
      Bool.eqb (int_gt_quotient k (inject_Z n / inject_Z 2))
               (float_of_int n / float_of_int 2 <? float_of_int k)%float)
      (range (n + 1)))
    (range 257)
  = true.
Proof. vm_compute. reflexivity. Qed.

#[warnings="-inexact-float"] Example percentage_two_of_three :
  percentage 2 3 = 66.66666666666666%float.
Proof. reflexivity. Qed.

(* ================================================================== *)
(** * Characters *)
(* ================================================================== *)

Lemma unicode_tolower_cases (c : codepoint) :
  ((65 <= c <= 90 /\ unicode_tolower c = c + 32)
   \/ (c = 304 /\ unicode_tolower c = 105)
   \/ (c = 8490 /\ unicode_tolower c = 107)
   \/ (~ (65 <= c <= 90) /\ c <> 304 /\ c <> 8490
       /\ unicode_tolower c = c))%N.
Proof.
  unfold unicode_tolower.
  destruct (N.leb_spec 65 c); destruct (N.leb_spec c 90); simpl;
    try (left; split; [lia | reflexivity]);
    (destruct (N.eqb_spec c 304);
     [ right; left; split; [assumption | reflexivity] | ]);
    (destruct (N.eqb_spec c 8490);
     [ right; right; left; split; [assumption | reflexivity] | ]);
    right; right; right; repeat split; try assumption; lia.
Qed.

Lemma range_A_F_matches (c : codepoint) :
  Re.charset_matches true (Re.Range 65%N 70%N) c = answer_letter c.
Proof.
  apply eq_true_iff_eq.
  change (Re.charset_matches true (Re.Range 65%N 70%N) c)
    with ((unicode_tolower c =? 97) || false
          || ((unicode_tolower c =? 98) || false
          || ((unicode_tolower c =? 99) || false
          || ((unicode_tolower c =? 100) || false
          || ((unicode_tolower c =? 101) || false
          || ((unicode_tolower c =? 102) || false || false))))))%N.
  unfold answer_letter.
  destruct (unicode_tolower_cases c) as [[H E] | [[H E] | [[H E] | [H E]]]];
    [ | | | destruct E as (? & ? & E)]; rewrite E; bool_to_prop; lia.
Qed.

Lemma literal_matches_ignorecase (p c : codepoint) :
  Re.literal_matches true p c
  = if unicode_iscased p
    then existsb (N.eqb (unicode_tolower c))
           (unicode_tolower p :: Re.ignorecase_fixes (unicode_tolower p))
    else N.eqb c p.
Proof. reflexivity. Qed.

(** On an ASCII pattern character the engine accepts exactly the
    documented variants. *)
Lemma stands_for_ascii (p c : codepoint) :
  (p < 128)%N -> stands_for p c <-> In c (caseless_variants p).
Proof.
  intros Hp.
  assert (K : In p (Re.codepoints_between 0%N 127%N)).
  { unfold Re.codepoints_between. apply in_map_iff.
    exists (N.to_nat p). split; [apply N2Nat.id |].
    apply in_seq. lia. }
  vm_compute in K.
  unfold stands_for. rewrite literal_matches_ignorecase.
  destruct (unicode_tolower_cases c) as [[H E] | [[H E] | [[H E] | [H E]]]];
    [ | | | destruct E as (? & ? & E)]; rewrite E; clear E;
    repeat (destruct K as [<- | K];
            [ match goal with
              | |- context [unicode_iscased ?q] =>
                  compute_closed (unicode_iscased q);
                  compute_closed (unicode_tolower q
                                  :: Re.ignorecase_fixes (unicode_tolower q));
                  compute_closed (caseless_variants q)
              end;
              cbn [existsb In]; bool_to_prop; lia | ]);
    destruct K.
Qed.

Lemma answer_letter_not_space (c : codepoint) :
  answer_letter c = true -> isspace c = false.
Proof.
  unfold answer_letter, isspace. intros H.
  apply not_true_is_false. intros S. bool_to_prop. lia.
Qed.

Lemma answer_letter_upper (c : codepoint) :
  answer_letter c = true ->
  In [unicode_toupper c] (map py ["A"; "B"; "C"; "D"; "E"; "F"]%string).
Proof.
  unfold answer_letter, unicode_toupper. intros H. bool_to_prop.
  assert (K : (c = 65 \/ c = 66 \/ c = 67 \/ c = 68 \/ c = 69 \/ c = 70
               \/ c = 97 \/ c = 98 \/ c = 99 \/ c = 100 \/ c = 101
               \/ c = 102)%N) by lia.
  repeat (destruct K as [-> | K]; [ vm_compute; tauto | ]).
  subst c. vm_compute. tauto.
Qed.

(* ================================================================== *)
(** * The pattern, declaratively *)
(* ================================================================== *)

Lemma lstrip_split (s : str) :
  exists spaces, s = spaces ++ lstrip s
                 /\ Forall (fun c => isspace c = true) spaces.
Proof.
  induction s as [| c s IH]; simpl.
  - exists []. split; [reflexivity | constructor].
  - destruct (isspace c) eqn:E.
    + destruct IH as (sp & Hs & Hf). exists (c :: sp). split.
      * simpl. congruence.
      * constructor; assumption.
    + exists []. split; [reflexivity | constructor].
Qed.

Lemma lstrip_spaces_app (spaces s : str) :
  Forall (fun c => isspace c = true) spaces ->
  lstrip (spaces ++ s) = lstrip s.
Proof.
  induction 1 as [| c sp Hc _ IH]; simpl; [reflexivity |].
  rewrite Hc. exact IH.
Qed.

Lemma lstrip_keeps (pre : str) (c : codepoint) (post : str) :
  isspace c = false ->
  lstrip (pre ++ c :: post) = lstrip pre ++ c :: post.
Proof.
  intros Hc. induction pre as [| x pre IH]; simpl.
  - rewrite Hc. reflexivity.
  - destruct (isspace x); [exact IH | reflexivity].
Qed.

Lemma rstrip_keeps (pre : str) (c : codepoint) (post : str) :
  isspace c = false ->
  rstrip (pre ++ c :: post) = pre ++ c :: rstrip post.
Proof.
  intros Hc. unfold rstrip.
  rewrite rev_app_distr. simpl. rewrite <- app_assoc. simpl.
  rewrite lstrip_keeps by assumption.
  rewrite rev_app_distr. simpl. rewrite rev_involutive, <- app_assoc.
  reflexivity.
Qed.

Lemma rstrip_split (s : str) : exists spaces, s = rstrip s ++ spaces.
Proof.
  unfold rstrip. destruct (lstrip_split (rev s)) as (sp & Hs & _).
  exists (rev sp). rewrite <- rev_app_distr, <- Hs, rev_involutive.
  reflexivity.
Qed.

Lemma letter_after_spaces_iff (s : str) (c : codepoint) :
  letter_after_spaces s = Some c <->
  exists spaces post,
    s = spaces ++ c :: post
    /\ Forall (fun x => isspace x = true) spaces
    /\ answer_letter c = true.
Proof.
  unfold letter_after_spaces. split.
  - intros H. destruct (lstrip_split s) as (sp & Hs & Hf).
    destruct (lstrip s) as [| x r]; [discriminate |].
    destruct (answer_letter x) eqn:E; [| discriminate].
    injection H as ->. exists sp, r. auto.
  - intros (sp & post & -> & Hf & Hc).
    rewrite lstrip_spaces_app by assumption. simpl.
    rewrite (answer_letter_not_space c Hc), Hc. reflexivity.
Qed.

Lemma match_letter (s : str) :
  Re.match_here true [Re.Group (Re.Range 65%N 70%N)] s
  = match s with
    | c :: _ => if answer_letter c then Some [[c]] else None
    | [] => None
    end.
Proof.
  destruct s as [| c s]; [reflexivity |].
  change (Re.match_here true [Re.Group (Re.Range 65%N 70%N)] (c :: s))
    with (if Re.charset_matches true (Re.Range 65%N 70%N) c
          then Some [[c]] else None).
  rewrite range_A_F_matches. reflexivity.
Qed.

(** [\s*] before a continuation that wants an answer letter:
    backtracking never helps, because no whitespace is an answer letter. *)
Lemma match_star_spaces (k : str -> option Re.groups) (s : str) :
  (forall t, k t = match t with
                   | c :: _ => if answer_letter c then Some [[c]] else None
                   | [] => None
                   end) ->
  Re.match_star isspace k s
  = option_map (fun c => [[c]]) (letter_after_spaces s).
Proof.
  intros Hk. unfold letter_after_spaces.
  induction s as [| c s IH]; simpl; [apply Hk |].
  destruct (isspace c) eqn:E.
  - rewrite IH, Hk. destruct (lstrip s) as [| x r].
    + simpl. destruct (answer_letter c) eqn:L; [| reflexivity].
      apply answer_letter_not_space in L. congruence.
    + destruct (answer_letter x); simpl; [reflexivity |].
      destruct (answer_letter c) eqn:L; [| reflexivity].
      apply answer_letter_not_space in L. congruence.
  - rewrite Hk. destruct (answer_letter c); reflexivity.
Qed.

Lemma match_spaces_letter (s : str) :
  Re.match_here true [Re.Star Re.Whitespace; Re.Group (Re.Range 65%N 70%N)] s
  = option_map (fun c => [[c]]) (letter_after_spaces s).
Proof.
  change (Re.match_here true
            [Re.Star Re.Whitespace; Re.Group (Re.Range 65%N 70%N)] s)
    with (Re.match_star isspace
            (Re.match_here true [Re.Group (Re.Range 65%N 70%N)]) s).
  apply match_star_spaces. exact match_letter.
Qed.

Lemma match_literals (ps : str) (re : Re.pattern) (s : str)
    (g : Re.groups) :
  Re.match_here true (map (fun c => Re.One (Re.Literal c)) ps ++ re) s
  = Some g <->
  exists marker rest,
    s = marker ++ rest
    /\ Forall2 stands_for ps marker
    /\ Re.match_here true re rest = Some g.
Proof.
  revert s. induction ps as [| p ps IH]; intros s; simpl.
  - split.
    + intros H. exists [], s. repeat split; [constructor | exact H].
    + intros (m & r & -> & Hf & H). inversion Hf; subst. exact H.
  - destruct s as [| c s].
    + split; [discriminate |].
      intros (m & r & E & Hf & _). inversion Hf; subst. discriminate.
    + destruct (Re.literal_matches true p c) eqn:L.
      * rewrite IH. split.
        -- intros (m & r & -> & Hf & H).
           exists (c :: m), r. repeat split; [constructor |]; assumption.
        -- intros (m & r & E & Hf & H). inversion Hf; subst.
           injection E as <- ->. eauto.
      * split; [discriminate |].
        intros (m & r & E & Hf & _). inversion Hf; subst.
        injection E as <- _. unfold stands_for in *. congruence.
Qed.

(** The pattern matches at the start of [s] exactly when [s] begins with
    an occurrence, and then captures its letter. *)
Lemma match_FINAL_ANSWER (s : str) (g : Re.groups) :
  Re.match_here true FINAL_ANSWER s = Some g <->
  exists c, occurs_at s 0 c /\ g = [[c]].
Proof.
  unfold FINAL_ANSWER. rewrite match_literals. split.
  - intros (m & r & -> & Hf & H). rewrite match_spaces_letter in H.
    destruct (letter_after_spaces r) as [c |] eqn:E; [| discriminate].
    injection H as <-. apply letter_after_spaces_iff in E.
    destruct E as (sp & post & -> & Hs & Hc).
    exists c. split; [| reflexivity].
    apply (occurrence _ _ _ [] m sp post); auto.
  - intros (c & [pre m sp post E Hl Hf Hs Hc] & ->).
    destruct pre; [| discriminate]. simpl in E.
    exists m, (sp ++ c :: post). repeat split; try assumption.
    rewrite match_spaces_letter.
    assert (L : letter_after_spaces (sp ++ c :: post) = Some c)
      by (apply letter_after_spaces_iff; eauto).
    rewrite L. reflexivity.
Qed.

Lemma occurs_at_inside (a s b : str) (n : nat) (c : codepoint) :
  occurs_at s n c -> occurs_at (a ++ s ++ b) (List.length a + n) c.
Proof.
  intros [pre m sp post E Hl Hf Hs Hc].
  apply (occurrence _ _ _ (a ++ pre) m sp (post ++ b)); auto.
  - rewrite E. repeat (rewrite <- app_assoc; simpl). reflexivity.
  - rewrite length_app. lia.
Qed.

Lemma occurs_at_cons (x : codepoint) (s : str) (n : nat) (c : codepoint) :
  occurs_at s n c -> occurs_at (x :: s) (S n) c.
Proof.
  intros H. apply (occurs_at_inside [x] s [] n c) in H.
  simpl in H. rewrite app_nil_r in H. exact H.
Qed.

Lemma occurs_at_tail (x : codepoint) (s : str) (n : nat) (c : codepoint) :
  occurs_at (x :: s) (S n) c -> occurs_at s n c.
Proof.
  intros [pre m sp post E Hl Hf Hs Hc].
  destruct pre as [| y pre]; [discriminate |].
  simpl in E, Hl. injection E as _ E. injection Hl as Hl.
  exact (occurrence _ _ _ pre m sp post E Hl Hf Hs Hc).
Qed.

Lemma occurs_at_skipn (s : str) (n : nat) (c : codepoint) :
  occurs_at s n c -> occurs_at (skipn n s) 0 c.
Proof.
  revert s. induction n as [| n IH]; intros s H; [exact H |].
  destruct s as [| x s].
  - destruct H as [pre m sp post E Hl _ _ _].
    destruct pre; discriminate.
  - simpl. apply IH. exact (occurs_at_tail _ _ _ _ H).
Qed.

Lemma occurs_at_unique (s : str) (n : nat) (c c' : codepoint) :
  occurs_at s n c -> occurs_at s n c' -> c = c'.
Proof.
  intros H H'. apply occurs_at_skipn in H, H'.
  assert (E : Re.match_here true FINAL_ANSWER (skipn n s) = Some [[c]])
    by (apply match_FINAL_ANSWER; eauto).
  assert (E' : Re.match_here true FINAL_ANSWER (skipn n s) = Some [[c']])
    by (apply match_FINAL_ANSWER; eauto).
  congruence.
Qed.

Lemma search_cons (re : Re.pattern) (x : codepoint) (s : str) :
  Re.search true re (x :: s)
  = match Re.match_here true re (x :: s) with
    | Some g => Some g
    | None => Re.search true re s
    end.
Proof. reflexivity. Qed.

(** [re.search] returns the capture of the leftmost occurrence, and
    nothing exactly when there is no occurrence. *)
Lemma search_FINAL_ANSWER (s : str) :
  match Re.search true FINAL_ANSWER s with
  | Some g =>
      exists n c, occurs_at s n c
                  /\ (forall m c', occurs_at s m c' -> (n <= m)%nat)
                  /\ g = [[c]]
  | None => forall n c, ~ occurs_at s n c
  end.
Proof.
  induction s as [| x s IH].
  - change (Re.search true FINAL_ANSWER []) with (@None Re.groups).
    intros n c [pre m sp post E _ _ _ _].
    destruct pre; [| discriminate]. simpl in E.
    destruct m; [| discriminate]. simpl in E.
    destruct sp; discriminate.
  - rewrite search_cons.
    destruct (Re.match_here true FINAL_ANSWER (x :: s)) as [g |] eqn:E.
    + apply match_FINAL_ANSWER in E. destruct E as (c & Hc & ->).
      exists 0%nat, c. repeat split; [assumption | intros; lia].
    + assert (N0 : forall c, ~ occurs_at (x :: s) 0 c).
      { intros c Hc.
        assert (K : Re.match_here true FINAL_ANSWER (x :: s) = Some [[c]])
          by (apply match_FINAL_ANSWER; eauto).
        congruence. }
      destruct (Re.search true FINAL_ANSWER s) as [g |].
      * destruct IH as (n & c & Hc & Hmin & ->).
        exists (S n), c. repeat split.
        -- exact (occurs_at_cons x s n c Hc).
        -- intros m c' H. destruct m as [| m].
           ++ exfalso. exact (N0 _ H).
           ++ apply occurs_at_tail in H. apply Hmin in H. lia.
      * intros n c H. destruct n as [| n].
        -- exact (N0 _ H).
        -- apply occurs_at_tail in H. exact (IH _ _ H).
Qed.

Lemma marker_starts_with_letter (marker : str) :
  Forall2 stands_for (py "Final Answer:") marker ->
  exists f marker', marker = f :: marker' /\ isspace f = false.
Proof.
  intros Hf.
  assert (P : py "Final Answer:" = 70%N :: py "inal Answer:") by reflexivity.
  rewrite P in Hf. inversion Hf as [| p f ps marker' Hp _]; subst.
  exists f, marker'. split; [reflexivity |].
  unfold stands_for in Hp.
  change (Re.literal_matches true 70%N f)
    with ((unicode_tolower f =? 102) || false)%N in Hp.
  apply not_true_is_false. intros S. unfold isspace in S.
  destruct (unicode_tolower_cases f) as [[H E] | [[H E] | [[H E] | [H E]]]];
    [ | | | destruct E as (? & ? & E)]; rewrite E in Hp;
    bool_to_prop; lia.
Qed.

(** [strip] removes a run of whitespace at each end, and no occurrence
    begins or ends inside what it removes: the occurrences of the
    stripped text are those of the text, moved left by a constant. *)
Lemma strip_occurrences (text : str) :
  exists k : nat,
    (forall n c, occurs_at text n c ->
                 (k <= n)%nat /\ occurs_at (strip text) (n - k) c)
    /\ (forall m c, occurs_at (strip text) m c -> occurs_at text (k + m) c).
Proof.
  destruct (lstrip_split text) as (a & Ha & Hsp).
  destruct (rstrip_split (lstrip text)) as (b & Hb).
  fold (strip text) in Hb.
  exists (List.length a). split.
  - intros n c [pre m sp post E Hl Hf Hs Hc].
    destruct (marker_starts_with_letter m Hf) as (f & m' & -> & Hns).
    destruct (lstrip_split pre) as (a' & Ha' & _).
    assert (L : lstrip text = lstrip pre ++ (f :: m') ++ sp ++ c :: post).
    { rewrite E. simpl. apply lstrip_keeps. exact Hns. }
    assert (Eq : a = a').
    { apply (app_inv_tail (lstrip text)). rewrite <- Ha, L.
      rewrite app_assoc, <- Ha'. exact E. }
    subst a'.
    assert (Len : List.length pre
                  = (List.length a + List.length (lstrip pre))%nat)
      by (rewrite Ha' at 1; apply length_app).
    split; [lia |].
    replace (n - List.length a)%nat with (List.length (lstrip pre)) by lia.
    apply (occurrence _ _ _ (lstrip pre) (f :: m') sp (rstrip post));
      auto.
    unfold strip. rewrite L.
    replace (lstrip pre ++ (f :: m') ++ sp ++ c :: post)
      with ((lstrip pre ++ (f :: m') ++ sp) ++ c :: post)
      by (repeat rewrite <- app_assoc; reflexivity).
    rewrite rstrip_keeps by (apply answer_letter_not_space; exact Hc).
    repeat rewrite <- app_assoc. reflexivity.
  - intros m c H. rewrite Ha at 1. rewrite Hb.
    apply occurs_at_inside. exact H.
Qed.

(* ================================================================== *)
(** * Extraction of one answer *)
(* ================================================================== *)

(** What [extract_single_answer] does, in terms of occurrences. *)
Lemma extract_single_answer_spec (output : str) :
  match extract_single_answer output with
  | Return a =>
      exists n c,
        occurs_at output n c
        /\ (forall m c', occurs_at output m c' -> (n <= m)%nat)
        /\ a = [unicode_toupper c]
  | Raise e =>
      e = AnswerExtractionError "No answer found in model output"
      /\ forall n c, ~ occurs_at output n c
  end.
Proof.
  unfold extract_single_answer.
  destruct (strip_occurrences output) as (k & Hfw & Hbw).
  pose proof (search_FINAL_ANSWER (strip output)) as S.
  destruct (Re.search true FINAL_ANSWER (strip output)) as [g |].
  - destruct S as (n & c & Hc & Hmin & ->).
    exists (k + n)%nat, c. repeat split.
    + apply Hbw. exact Hc.
    + intros m c' H. apply Hfw in H. destruct H as (Hk & H).
      apply Hmin in H. lia.
  - split; [reflexivity |]. intros n c H.
    apply Hfw in H. destruct H as (_ & H). exact (S _ _ H).
Qed.

Lemma extract_single_answer_raises (output : str) (e : exn) :
  extract_single_answer output = Raise e ->
  e = AnswerExtractionError "No answer found in model output".
Proof.
  unfold extract_single_answer.
  destruct (Re.search true FINAL_ANSWER (strip output));
    [discriminate | congruence].
Qed.

(** A returned answer is the upper case of an answer letter. *)
Lemma returned_answer_is_letter (output : str) (a : str) :
  extract_single_answer output = Return a ->
  exists c, answer_letter c = true /\ a = [unicode_toupper c].
Proof.
  intros H.
  pose proof (extract_single_answer_spec output) as S. rewrite H in S.
  destruct S as (n & c & [_ _ _ _ _ _ _ _ Hc] & _ & ->).
  exists c. split; [exact Hc | reflexivity].
Qed.

(** C9: a successful extraction is one of the six upper-case letters. *)
Theorem extract_single_answer_in_A_F :
  forall (output : str) (a : str),
    extract_single_answer output = Return a -> In a ANSWER_LETTERS.
Proof.
  intros output a H.
  destruct (returned_answer_is_letter output a H) as (c & Hc & ->).
  unfold ANSWER_LETTERS. apply answer_letter_upper. exact Hc.
Qed.

Lemma extract_single_answer_in_A_F_witness :
  extract_single_answer (py "so: final answer:  e") = Return (py "E")
  /\ In (py "E") ANSWER_LETTERS.
Proof.
  split; [reflexivity |].
  apply (extract_single_answer_in_A_F (py "so: final answer:  e")).
  reflexivity.
Defined.

(** C5, as amended: a text with an occurrence of the pattern extracts
    successfully, to one of the six letters; the letter returned is the
    upper-cased letter of the leftmost occurrence. *)
Theorem extract_single_answer_leftmost :
  forall (text : str) (n : nat) (c : codepoint),
    occurs_at text n c ->
    (exists a, extract_single_answer text = Return a
               /\ In a ANSWER_LETTERS)
    /\ ((forall m c', occurs_at text m c' -> (n <= m)%nat) ->
        extract_single_answer text = Return [unicode_toupper c]).
Proof.
  intros text n c Hc.
  pose proof (extract_single_answer_spec text) as S.
  destruct (extract_single_answer text) as [a | e] eqn:E.
  - destruct S as (n0 & c0 & Hc0 & Hmin & ->). split.
    + exists [unicode_toupper c0]. split; [reflexivity |].
      destruct (returned_answer_is_letter text _ E) as (c1 & Hc1 & E1).
      rewrite E1. apply answer_letter_upper. exact Hc1.
    + intros Hfirst.
      assert (n0 = n) by (apply Hmin in Hc; apply Hfirst in Hc0; lia).
      subst n0. rewrite (occurs_at_unique _ _ _ _ Hc Hc0). reflexivity.
  - destruct S as (_ & S). exfalso. exact (S _ _ Hc).
Qed.

Lemma occurs_in_two_answers :
  occurs_at (py "Final Answer: A Final Answer: B") 0%nat 65%N
  /\ occurs_at (py "Final Answer: A Final Answer: B") 16%nat 66%N.
Proof.
  split.
  - apply (occurrence _ _ _ [] (py "Final Answer:") [32%N]
             (py " Final Answer: B")); try reflexivity.
    + repeat constructor.
    + repeat constructor.
  - apply (occurrence _ _ _ (py "Final Answer: A ") (py "Final Answer:")
             [32%N] []); try reflexivity.
    + repeat constructor.
    + repeat constructor.
Qed.

Lemma extract_single_answer_leftmost_witness :
  occurs_at (py "Final Answer: A Final Answer: B") 0%nat 65%N
  /\ extract_single_answer (py "Final Answer: A Final Answer: B")
     = Return (py "A").
Proof.
  split; [exact (proj1 occurs_in_two_answers) |].
  apply (proj2 (extract_single_answer_leftmost
                  (py "Final Answer: A Final Answer: B") 0%nat 65%N
                  (proj1 occurs_in_two_answers))).
  intros m c' _. lia.
Defined.

(** C5 as stated fails on a text with two occurrences: the letter of
    the second one is not what is returned. *)
Lemma extract_single_answer_second_occurrence :
  occurs_at (py "Final Answer: A Final Answer: B") 16%nat 66%N
  /\ extract_single_answer (py "Final Answer: A Final Answer: B")
     = Return (py "A")
  /\ extract_single_answer (py "Final Answer: A Final Answer: B")
     <> Return [unicode_toupper 66%N].
Proof.
  split; [exact (proj2 occurs_in_two_answers) |].
  split; [reflexivity | discriminate].
Qed.

(* ================================================================== *)
(** * Batch extraction *)
(* ================================================================== *)

Lemma extract_multiple_answers_loop_spec (outputs valid_answers : list str)
    (w : World) :
  fst (extract_multiple_answers_loop outputs valid_answers w)
  = Return (valid_answers ++ successes outputs).
Proof.
  revert valid_answers w.
  induction outputs as [| output rest IH]; intros valid_answers w.
  - simpl. rewrite app_nil_r. reflexivity.
  - simpl extract_multiple_answers_loop. step_monad.
    destruct (extract_single_answer output) as [answer | e] eqn:E.
    + rewrite IH, <- app_assoc. reflexivity.
    + rewrite (extract_single_answer_raises _ _ E). simpl.
      rewrite IH. reflexivity.
Qed.

Lemma successes_length (outputs : list str) :
  (List.length (successes outputs) <= List.length outputs)%nat.
Proof.
  induction outputs as [| output rest IH]; simpl; [lia |].
  rewrite length_app.
  destruct (extract_single_answer output); simpl; lia.
Qed.

(** C8: batch extraction returns the successful single extractions in
    input order; the result is never longer than the input and can be
    strictly shorter. *)
Theorem extract_multiple_answers_keeps_successes :
  (forall (outputs : list str) (w : World),
      fst (extract_multiple_answers outputs w) = Return (successes outputs)
      /\ (List.length (successes outputs) <= List.length outputs)%nat)
  /\ (exists outputs : list str,
        (List.length (successes outputs) < List.length outputs)%nat).
Proof.
  split.
  - intros outputs w. split.
    + exact (extract_multiple_answers_loop_spec outputs [] w).
    + apply successes_length.
  - exists [py "Final Answer: A"; py "no idea"]. vm_compute. lia.
Qed.

(** C7: a text without an occurrence of the pattern makes the single
    extraction raise [AnswerExtractionError]; the batch form returns
    whatever its input. *)
Theorem extraction_failure_is_absorbed :
  (forall output : str,
      (forall n c, ~ occurs_at output n c) ->
      extract_single_answer output
      = Raise (AnswerExtractionError "No answer found in model output"))
  /\ (forall (outputs : list str) (w : World),
        exists answers, fst (extract_multiple_answers outputs w)
                        = Return answers).
Proof.
  split.
  - intros output Hno.
    pose proof (extract_single_answer_spec output) as S.
    destruct (extract_single_answer output) as [a | e].
    + destruct S as (n & c & Hc & _). exfalso. exact (Hno _ _ Hc).
    + destruct S as (-> & _). reflexivity.
  - intros outputs w. exists (successes outputs).
    exact (extract_multiple_answers_loop_spec outputs [] w).
Qed.

Lemma extraction_failure_is_absorbed_witness :
  (forall n c, ~ occurs_at (py "The answer is B") n c)
  /\ extract_single_answer (py "The answer is B")
     = Raise (AnswerExtractionError "No answer found in model output").
Proof.
  assert (Hno : forall n c, ~ occurs_at (py "The answer is B") n c).
  { intros n c H.
    pose proof (extract_single_answer_spec (py "The answer is B")) as S.
    change (extract_single_answer (py "The answer is B"))
      with (@Raise str
              (AnswerExtractionError "No answer found in model output")) in S.
    destruct S as (_ & S). exact (S _ _ H). }
  split; [exact Hno |].
  exact (proj1 extraction_failure_is_absorbed (py "The answer is B") Hno).
Defined.

(* ================================================================== *)
(** * The vote *)
(* ================================================================== *)

Lemma str_eqb_eq (a b : str) : str_eqb a b = true <-> a = b.
Proof.
  revert b. induction a as [| x a IH]; intros [| y b]; simpl;
    try (split; [discriminate | discriminate]); [tauto |].
  rewrite andb_true_iff, N.eqb_eq, IH. split.
  - intros [-> ->]. reflexivity.
  - intros E. injection E as -> ->. auto.
Qed.

Lemma count_count_occ (answers : list str) (x : str) :
  count answers x = Z.of_nat (count_occ str_eq_dec answers x).
Proof.
  unfold count. f_equal.
  induction answers as [| a answers IH]; simpl; [reflexivity |].
  destruct (str_eq_dec a x) as [-> | Hne].
  - rewrite (proj2 (str_eqb_eq x x) eq_refl). simpl. congruence.
  - destruct (str_eqb x a) eqn:E; [| exact IH].
    apply str_eqb_eq in E. congruence.
Qed.

(** C1: on a non-empty list the vote is true exactly when the number of
    answers equal to the correct one exceeds half the length of the
    list; 2 of 4 is false, 2 of 3 is true, 1 of 1 is true. *)
Theorem calculate_majority_vote_strict_majority :
  (forall (answers : list str) (correct_answer : str),
      answers <> [] ->
      (calculate_majority_vote answers correct_answer = true <->
       (Z.of_nat (List.length answers) # 2
        < inject_Z (Z.of_nat (count_occ str_eq_dec answers correct_answer)))%Q))
  /\ calculate_majority_vote [py "A"; py "B"; py "A"; py "B"] (py "A") = false
  /\ calculate_majority_vote [py "A"; py "A"; py "B"] (py "A") = true
  /\ calculate_majority_vote [py "C"] (py "C") = true.
Proof.
  split; [| repeat split; reflexivity].
  intros answers correct_answer Hne.
  unfold calculate_majority_vote.
  destruct answers as [| a answers]; [congruence |].
  rewrite count_count_occ. unfold len.
  generalize (Z.of_nat (count_occ str_eq_dec (a :: answers) correct_answer)).
  generalize (Z.of_nat (List.length (a :: answers))).
  intros l k. unfold int_gt_quotient, Qle_bool, Qlt. simpl.
  rewrite negb_true_iff, Z.leb_gt. lia.
Qed.

Lemma calculate_majority_vote_strict_majority_witness :
  [py "A"; py "A"; py "B"] <> []
  /\ (calculate_majority_vote [py "A"; py "A"; py "B"] (py "A") = true <->
      (3 # 2 < inject_Z 2)%Q).
Proof.
  assert (Hne : [py "A"; py "A"; py "B"] <> []) by discriminate.
  split; [exact Hne |].
  exact (proj1 calculate_majority_vote_strict_majority
           [py "A"; py "A"; py "B"] (py "A") Hne).
Defined.

(** With no answer extracted, the evaluation raises before it votes. *)
Lemma eval_majority_vote_no_successes (model_outputs : list str)
    (answer : str) (w : World) :
  successes model_outputs = [] ->
  fst (eval_majority_vote model_outputs answer w)
  = Raise (ValueError
             "Failed to extract any valid answers from model outputs").
Proof.
  intros Hnone. unfold eval_majority_vote, bind.
  pose proof (extract_multiple_answers_loop_spec model_outputs [] w) as S.
  fold (extract_multiple_answers model_outputs) in S.
  destruct (extract_multiple_answers model_outputs w) as [r w'].
  simpl in S. subst r. rewrite Hnone. reflexivity.
Qed.

(** C3, as amended: [eval_majority_vote] raises [ValueError] whenever no
    output yields an answer, whatever the correct answer;
    [calculate_majority_vote] itself returns [False] on the empty list. *)
Theorem eval_majority_vote_without_answers :
  forall (answer : str),
    calculate_majority_vote [] answer = false
    /\ forall (model_outputs : list str) (w : World),
         successes model_outputs = [] ->
         fst (eval_majority_vote model_outputs answer w)
         = Raise (ValueError
                    "Failed to extract any valid answers from model outputs").
Proof.
  intros answer. split.
  - unfold calculate_majority_vote. reflexivity.
  - intros model_outputs w Hnone.
    apply eval_majority_vote_no_successes. exact Hnone.
Qed.

Lemma eval_majority_vote_without_answers_witness :
  successes [py "no idea"; py "B, probably"] = []
  /\ fst (eval_majority_vote [py "no idea"; py "B, probably"] (py "B")
            initial_world)
     = Raise (ValueError
                "Failed to extract any valid answers from model outputs").
Proof.
  split; [reflexivity |].
  apply (proj2 (eval_majority_vote_without_answers (py "B"))).
  reflexivity.
Defined.

(** C3 as stated fails: the vote on no answers returns a boolean. *)
Lemma calculate_majority_vote_empty_returns :
  calculate_majority_vote [] (py "A") = false.
Proof. reflexivity. Qed.

(* ================================================================== *)
(** * The retrying client *)
(* ================================================================== *)

Section Client.

Variable chat : nat -> ChatRequest -> ChatOutcome.
Variable config : ModelConfig.
Variable prompt : str.

Lemma _validate_response_requests (response : ChatResponse) (w : World) :
  requests (snd (_validate_response response w)) = requests w.
Proof.
  unfold _validate_response.
  destruct (resp_message response) as [[[[| c s] |]] |]; reflexivity.
Qed.

Lemma _make_chat_request_requests (w : World) :
  requests (snd (_make_chat_request chat config prompt w))
  = requests w ++ [chat_arguments config prompt].
Proof.
  unfold _make_chat_request, bind, call_chat.
  destruct (chat (List.length (requests w)) (chat_arguments config prompt))
    as [response | e]; [| reflexivity].
  rewrite _validate_response_requests. reflexivity.
Qed.

Lemma _make_chat_request_returns_log (w : World) (content : str) :
  fst (_make_chat_request chat config prompt w) = Return content ->
  log (snd (_make_chat_request chat config prompt w)) = log w.
Proof.
  unfold _make_chat_request, bind, call_chat.
  destruct (chat (List.length (requests w)) (chat_arguments config prompt))
    as [response | e]; [| discriminate].
  unfold _validate_response.
  destruct (resp_message response) as [[[[| c s] |]] |];
    simpl; try discriminate.
  reflexivity.
Qed.

Lemma range_pos (n : Z) :
  1 <= n -> range n = 0 :: map Z.of_nat (seq 1 (Z.to_nat n - 1)).
Proof.
  intros H. unfold range.
  replace (Z.to_nat n) with (S (Z.to_nat n - 1)) at 1 by lia.
  reflexivity.
Qed.

Lemma range_nonpos (n : Z) : n <= 0 -> range n = [].
Proof.
  intros H. unfold range. replace (Z.to_nat n) with 0%nat by lia.
  reflexivity.
Qed.

(** One turn of the loop whose request returns. *)
Lemma predict_loop_returns (attempt : Z) (rest : list Z) (w : World)
    (content : str) :
  fst (_make_chat_request chat config prompt w) = Return content ->
  predict_loop chat config prompt (attempt :: rest) w
  = _make_chat_request chat config prompt w.
Proof.
  intros H. simpl. unfold try_except.
  destruct (_make_chat_request chat config prompt w) as [r w1].
  simpl in H. subst r. reflexivity.
Qed.

(** One turn of the loop whose request raises an [Exception]. *)
Lemma predict_loop_fails (attempt : Z) (rest : list Z) (w : World)
    (e : exn) :
  fst (_make_chat_request chat config prompt w) = Raise e ->
  is_Exception e = true ->
  predict_loop chat config prompt (attempt :: rest) w
  = (if attempt =? max_retries config - 1 then
       logging ERROR MaxRetriesExceeded ;;
       raise (MaxRetriesExceededError
                ("Failed to get response after "
                 ++ str_of_int (max_retries config) ++ " retries")
                (Some e))
     else predict_loop chat config prompt rest)
      (after_failed_attempt chat config prompt attempt e w).
Proof.
  intros H Hex. unfold after_failed_attempt. simpl. unfold try_except.
  destruct (_make_chat_request chat config prompt w) as [r w1].
  simpl in H. subst r. rewrite Hex. reflexivity.
Qed.

Lemma after_failed_attempt_requests (attempt : Z) (e : exn) (w : World) :
  requests (after_failed_attempt chat config prompt attempt e w)
  = requests w ++ [chat_arguments config prompt].
Proof. apply _make_chat_request_requests. Qed.

(** The loop from attempt [i] on, when every remaining request fails. *)
Lemma predict_loop_all_fail (error_of : nat -> exn) :
  forall (k i : nat) (w : World),
    Z.of_nat (i + S k) = max_retries config ->
    (forall j, (j <= k)%nat ->
       request_fails chat config prompt (List.length (requests w) + j)
                     (error_of (i + j)%nat)
       /\ is_Exception (error_of (i + j)%nat) = true) ->
    exists w',
      predict_loop chat config prompt (map Z.of_nat (seq i (S k))) w
      = (Raise (MaxRetriesExceededError
                  ("Failed to get response after "
                   ++ str_of_int (max_retries config) ++ " retries")
                  (Some (error_of (i + k)%nat))), w')
      /\ requests w'
         = requests w ++ repeat (chat_arguments config prompt) (S k).
Proof.
  induction k as [| k IH]; intros i w Hn Hfail;
    destruct (Hfail 0%nat (Nat.le_0_l _)) as (Hf & Hex);
    repeat rewrite Nat.add_0_r in Hf; rewrite Nat.add_0_r in Hex;
    specialize (Hf w eq_refl);
    change (map Z.of_nat (seq i (S ?n)))
      with (Z.of_nat i :: map Z.of_nat (seq (S i) n));
    rewrite (predict_loop_fails _ _ _ _ Hf Hex).
  - replace (Z.of_nat i =? max_retries config - 1) with true
      by (symmetry; apply Z.eqb_eq; lia).
    rewrite Nat.add_0_r. eexists. split; [reflexivity |].
    apply after_failed_attempt_requests.
  - replace (Z.of_nat i =? max_retries config - 1) with false
      by (symmetry; apply Z.eqb_neq; lia).
    destruct (IH (S i) (after_failed_attempt chat config prompt
                          (Z.of_nat i) (error_of i) w))
      as (w' & Hp & Hreq).
    + lia.
    + intros j Hj.
      rewrite after_failed_attempt_requests, length_app. simpl.
      replace (List.length (requests w) + 1 + j)%nat
        with (List.length (requests w) + S j)%nat by lia.
      replace (S (i + j))%nat with (i + S j)%nat by lia.
      apply Hfail. lia.
    + exists w'. split.
      * rewrite Hp. replace (S i + k)%nat with (i + S k)%nat by lia.
        reflexivity.
      * rewrite Hreq, after_failed_attempt_requests, <- app_assoc.
        reflexivity.
Qed.

End Client.

(** Where the code keeps the retry policy: with [max_retries >= 1], a
    first request that returns is returned after that single request,
    and when every request fails, exactly [max_retries] requests are
    sent and [MaxRetriesExceededError] is raised with the error of the
    last one as its cause.  With [max_retries <= 0] the loop is empty and
    the statement after it runs. *)
Theorem predict_retry_policy :
  forall (chat : nat -> ChatRequest -> ChatOutcome) (config : ModelConfig)
         (prompt : str) (w : World),
    (max_retries config <= 0 ->
     predict chat config prompt w
     = (Raise (MaxRetriesExceededError
                 "Failed to get response after max retries" None), w))
    /\ (1 <= max_retries config ->
        (forall content,
            fst (_make_chat_request chat config prompt w) = Return content ->
            exists w',
              predict chat config prompt w = (Return content, w')
              /\ requests w' = requests w ++ [chat_arguments config prompt]
              /\ log w' = log w)
        /\ (forall error_of : nat -> exn,
              (forall attempt,
                  (attempt < Z.to_nat (max_retries config))%nat ->
                  request_fails chat config prompt
                    (List.length (requests w) + attempt) (error_of attempt)
                  /\ is_Exception (error_of attempt) = true) ->
              exists w',
                predict chat config prompt w
                = (Raise (MaxRetriesExceededError
                            ("Failed to get response after "
                             ++ str_of_int (max_retries config) ++ " retries")
                            (Some (error_of
                                     (Z.to_nat (max_retries config) - 1)%nat))),
                   w')
                /\ requests w'
                   = requests w
                     ++ repeat (chat_arguments config prompt)
                               (Z.to_nat (max_retries config)))).
Proof.
  intros chat config prompt w. split; [| intros Hpos; split].
  - intros Hle. unfold predict. rewrite range_nonpos by assumption.
    reflexivity.
  - intros content H. unfold predict. rewrite range_pos by assumption.
    rewrite (predict_loop_returns _ _ _ _ _ _ content H).
    pose proof (_make_chat_request_requests chat config prompt w) as Hr.
    pose proof (_make_chat_request_returns_log chat config prompt w content H)
      as Hl.
    destruct (_make_chat_request chat config prompt w) as [r w'].
    simpl in H, Hr, Hl. subst r. exists w'. auto.
  - intros error_of Hfail. unfold predict, range.
    destruct (predict_loop_all_fail chat config prompt error_of
                (Z.to_nat (max_retries config) - 1) 0 w) as (w' & Hp & Hr).
    + lia.
    + intros j Hj. apply Hfail. lia.
    + replace (S (Z.to_nat (max_retries config) - 1))
        with (Z.to_nat (max_retries config)) in Hp, Hr by lia.
      exists w'. split; assumption.
Qed.

Lemma predict_retry_policy_witness :
  (exists w',
      predict refusing_chat (llama 3) (py "Which one?") initial_world
      = (Raise (MaxRetriesExceededError
                  "Failed to get response after 3 retries"
                  (Some (BackendException "connection refused"))), w')
      /\ requests w'
         = repeat (chat_arguments (llama 3) (py "Which one?")) 3)
  /\ (exists w',
        predict (scripted_chat [reply (py "Final Answer: A")]) (llama 3)
                (py "Which one?") initial_world
        = (Return (py "Final Answer: A"), w')
        /\ requests w' = [chat_arguments (llama 3) (py "Which one?")]
        /\ log w' = [])
  /\ predict refusing_chat (llama (-1)) (py "Which one?") initial_world
     = (Raise (MaxRetriesExceededError
                 "Failed to get response after max retries" None),
        initial_world).
Proof.
  assert (Hpos : 1 <= max_retries (llama 3)) by (simpl; lia).
  assert (Hneg : max_retries (llama (-1)) <= 0) by (simpl; lia).
  split; [| split;
            [| exact (proj1 (predict_retry_policy refusing_chat (llama (-1))
                               (py "Which one?") initial_world) Hneg)]].
  - apply (proj2 (proj2 (predict_retry_policy refusing_chat (llama 3)
                           (py "Which one?") initial_world) Hpos)
             (fun _ => BackendException "connection refused")).
    intros attempt _. split; [| reflexivity].
    intros w _. reflexivity.
  - apply (proj1 (proj2 (predict_retry_policy
                           (scripted_chat [reply (py "Final Answer: A")])
                           (llama 3) (py "Which one?") initial_world) Hpos)
             (py "Final Answer: A")).
    reflexivity.
Defined.

(** C2: the code breaks the retry policy at [max_retries = 0], a value
    nothing validates.  The loop is empty, and the statement after it,
    which its own comment says is not reached, raises at once: a backend
    whose first request would return is never asked, and the error
    raised when every request would fail has no cause, where the raise
    inside the loop chains one. *)
Lemma predict_without_attempts :
  fst (_make_chat_request (scripted_chat [reply (py "Final Answer: A")])
         (llama 0) (py "Which one?") initial_world)
  = Return (py "Final Answer: A")
  /\ predict (scripted_chat [reply (py "Final Answer: A")]) (llama 0)
             (py "Which one?") initial_world
     = (Raise (MaxRetriesExceededError
                 "Failed to get response after max retries" None),
        initial_world)
  /\ predict refusing_chat (llama 0) (py "Which one?") initial_world
     = (Raise (MaxRetriesExceededError
                 "Failed to get response after max retries" None),
        initial_world).
Proof. repeat split. Qed.

(* ================================================================== *)
(** * The runner *)
(* ================================================================== *)

Section Runner.

Variable chat : nat -> ChatRequest -> ChatOutcome.
Variable self : Benchmark.

Lemma _process_question_vote (question : Question) (w w1 : World)
    (responses : list str) (result : bool) (answers : list str) :
  _collect_responses chat self question w = (Return responses, w1) ->
  fst (eval_majority_vote responses (answer question) w1)
  = Return (result, answers) ->
  fst (_process_question chat self question w)
  = Return (if result then 1 else 0).
Proof.
  intros Hc Hv. unfold _process_question, bind at 1. rewrite Hc.
  unfold _evaluate_responses, bind at 1.
  destruct (eval_majority_vote responses (answer question) w1) as [r w2].
  simpl in Hv. subst r. reflexivity.
Qed.

Lemma _process_question_no_answer (question : Question) (w w1 : World)
    (responses : list str) :
  _collect_responses chat self question w = (Return responses, w1) ->
  successes responses = [] ->
  fst (_process_question chat self question w)
  = Raise (ValueError
             "Failed to extract any valid answers from model outputs").
Proof.
  intros Hc Hnone. unfold _process_question, bind at 1. rewrite Hc.
  unfold _evaluate_responses, bind at 1.
  pose proof (eval_majority_vote_no_successes responses (answer question)
                w1 Hnone) as Hv.
  destruct (eval_majority_vote responses (answer question) w1) as [r w2].
  simpl in Hv. subst r. reflexivity.
Qed.

Lemma question_votes_length (w w' : World) (questions : list Question)
    (votes : list bool) :
  question_votes chat self w questions votes w' ->
  List.length votes = List.length questions.
Proof. induction 1; simpl; congruence. Qed.

(** The running total over a prefix of questions whose votes return. *)
Lemma sum_scores_prefix (w w' : World) (questions : list Question)
    (votes : list bool) :
  question_votes chat self w questions votes w' ->
  forall (rest : list Question) (total : Z),
    sum_scores chat self (questions ++ rest) total w
    = sum_scores chat self rest (total + passed votes) w'.
Proof.
  induction 1 as [w | w question questions responses w1 result answers
                      votes w' Hc Hv _ IH]; intros rest total.
  - simpl. f_equal. unfold passed. simpl. lia.
  - pose proof (_process_question_vote _ _ _ _ _ _ Hc Hv) as Hp.
    simpl. unfold bind at 1.
    destruct (_process_question chat self question w) as [r w2].
    simpl in Hp, IH. subst r. rewrite IH. f_equal.
    unfold passed. destruct result; simpl; lia.
Qed.

End Runner.

Lemma run_returns_percentage (chat : nat -> ChatRequest -> ChatOutcome)
    (self : Benchmark) (w w' : World) (votes : list bool) :
  benchmark_data self <> [] ->
  question_votes chat self w (benchmark_data self) votes w' ->
  fst (run chat self w)
  = Return (percentage (passed votes) (len (benchmark_data self))).
Proof.
  intros Hne Hv. unfold run, bind at 1.
  pose proof (sum_scores_prefix chat self w w' _ votes Hv [] 0) as Hs.
  rewrite app_nil_r in Hs. rewrite Hs. simpl sum_scores. unfold ret at 1.
  unfold bind at 1, lift, int_truediv.
  replace (len (benchmark_data self) =? 0) with false; [reflexivity |].
  symmetry. apply Z.eqb_neq. unfold len.
  destruct (benchmark_data self); [congruence | simpl; lia].
Qed.

(** C4: over a non-empty list of questions whose votes all return, [run]
    returns the binary64 value of (votes passed / questions) * 100; with
    two questions, one passing and one failing, that value is 50.0. *)
Theorem run_score :
  forall (chat : nat -> ChatRequest -> ChatOutcome) (self : Benchmark)
         (w w' : World) (votes : list bool),
    benchmark_data self <> [] ->
    question_votes chat self w (benchmark_data self) votes w' ->
    fst (run chat self w)
    = Return (float_of_int (passed votes)
              / float_of_int (len (benchmark_data self))
              * float_of_int 100)%float
    /\ (votes = [true; false] \/ votes = [false; true] ->
        fst (run chat self w) = Return 50%float).
Proof.
  intros chat self w w' votes Hne Hv.
  pose proof (run_returns_percentage chat self w w' votes Hne Hv) as Hr.
  split; [exact Hr |].
  intros Hvotes. rewrite Hr. unfold len.
  rewrite <- (question_votes_length chat self _ _ _ _ Hv).
  destruct Hvotes as [-> | ->]; reflexivity.
Qed.

Lemma two_questions_votes :
  exists w',
    question_votes six_replies two_questions initial_world
      (benchmark_data two_questions) [true; false] w'.
Proof.
  eexists. simpl benchmark_data.
  eapply votes_cons; [vm_compute; reflexivity | vm_compute; reflexivity |].
  eapply votes_cons; [vm_compute; reflexivity | vm_compute; reflexivity |].
  apply votes_nil.
Qed.

Lemma run_score_witness :
  benchmark_data two_questions <> []
  /\ fst (run six_replies two_questions initial_world) = Return 50%float.
Proof.
  assert (Hne : benchmark_data two_questions <> []) by discriminate.
  split; [exact Hne |].
  destruct two_questions_votes as (w' & Hv).
  apply (proj2 (run_score six_replies two_questions initial_world w'
                  [true; false] Hne Hv)).
  left. reflexivity.
Defined.

(** C6: when every response collected for a question fails extraction,
    the [ValueError] of its evaluation leaves [run]: no score is
    returned, whatever the questions before and after it. *)
Theorem run_aborts_without_answers :
  forall (chat : nat -> ChatRequest -> ChatOutcome) (self : Benchmark)
         (w w1 w2 : World) (before after : list Question)
         (question : Question) (votes : list bool) (responses : list str),
    benchmark_data self = before ++ question :: after ->
    question_votes chat self w before votes w1 ->
    _collect_responses chat self question w1 = (Return responses, w2) ->
    Forall (fun response =>
              exists e, extract_single_answer response = Raise e) responses ->
    fst (_process_question chat self question w1)
    = Raise (ValueError
               "Failed to extract any valid answers from model outputs")
    /\ fst (run chat self w)
       = Raise (ValueError
                  "Failed to extract any valid answers from model outputs").
Proof.
  intros chat self w w1 w2 before after question votes responses
         Hdata Hv Hc Hfail.
  assert (Hnone : successes responses = []).
  { clear Hc. induction Hfail as [| r rs (e & He) _ IH]; [reflexivity |].
    simpl. rewrite He. exact IH. }
  pose proof (_process_question_no_answer chat self _ _ _ _ Hc Hnone) as Hp.
  split; [exact Hp |].
  unfold run, bind at 1. rewrite Hdata.
  rewrite (sum_scores_prefix chat self w w1 _ votes Hv).
  simpl sum_scores. unfold bind at 1.
  destruct (_process_question chat self question w1) as [r w3].
  simpl in Hp. subst r. reflexivity.
Qed.

Lemma first_question_votes :
  exists w1,
    question_votes three_replies_then_chatter two_questions initial_world
      [first_question] [true] w1
    /\ exists w2,
         _collect_responses three_replies_then_chatter two_questions
           second_question w1
         = (Return [py "A or C"; py "C, I think"; py "Answer: C"], w2).
Proof.
  eexists. split.
  - eapply votes_cons; [vm_compute; reflexivity | vm_compute; reflexivity |].
    apply votes_nil.
  - eexists. vm_compute. reflexivity.
Qed.

Lemma run_aborts_without_answers_witness :
  fst (run three_replies_then_chatter two_questions initial_world)
  = Raise (ValueError
             "Failed to extract any valid answers from model outputs").
Proof.
  destruct first_question_votes as (w1 & Hv & w2 & Hc).
  refine (proj2 (run_aborts_without_answers three_replies_then_chatter
                   two_questions initial_world w1 w2 [first_question] []
                   second_question [true] _ eq_refl Hv Hc _)).
  repeat constructor; eexists; reflexivity.
Defined.

(** C10: with no question loaded, [run] divides by zero: it raises
    [ZeroDivisionError] instead of returning a score. *)
Theorem run_without_questions_raises :
  forall (chat : nat -> ChatRequest -> ChatOutcome) (self : Benchmark)
         (w : World),
    benchmark_data self = [] ->
    fst (run chat self w) = Raise (ZeroDivisionError "division by zero").
Proof.
  intros chat self w Hnone. unfold run. rewrite Hnone. reflexivity.
Qed.

Lemma run_without_questions_raises_witness :
  fst (run six_replies
         {| model := llama 3; num_responses := 5; benchmark_data := [] |}
         initial_world)
  = Raise (ZeroDivisionError "division by zero").
Proof.
  apply (run_without_questions_raises six_replies
           {| model := llama 3; num_responses := 5; benchmark_data := [] |}
           initial_world).
  reflexivity.
Defined.


(* ================================================================== *)
(** * The vote: uniqueness, order and growth *)
(* ================================================================== *)

(** The vote in integers, the empty list included. *)
Lemma vote_iff_twice_count (answers : list str) (correct_answer : str) :
  calculate_majority_vote answers correct_answer = true <->
  Z.of_nat (List.length answers)
  < 2 * Z.of_nat (count_occ str_eq_dec answers correct_answer).
Proof.
  unfold calculate_majority_vote.
  destruct answers as [| a answers].
  - simpl. split; [discriminate | lia].
  - rewrite count_count_occ. unfold len.
    generalize
      (Z.of_nat (count_occ str_eq_dec (a :: answers) correct_answer)).
    generalize (Z.of_nat (List.length (a :: answers))).
    intros l k. set (majority := l < 2 * k).
    unfold int_gt_quotient, Qle_bool. simpl.
    rewrite negb_true_iff, Z.leb_gt. unfold majority. lia.
Qed.

Lemma count_occ_two (answers : list str) (a b : str) :
  a <> b ->
  (count_occ str_eq_dec answers a + count_occ str_eq_dec answers b
   <= List.length answers)%nat.
Proof.
  intros Hab. induction answers as [| x answers IH]; simpl; [lia |].
  destruct (str_eq_dec x a) as [Ea | Ha], (str_eq_dec x b) as [Eb | Hb];
    try lia.
  congruence.
Qed.

(** X1: at most one answer has the majority of a list: two correct
    answers that both pass the vote on the same list are equal. *)
Theorem calculate_majority_vote_unique :
  forall (answers : list str) (a b : str),
    calculate_majority_vote answers a = true ->
    calculate_majority_vote answers b = true ->
    a = b.
Proof.
  intros answers a b Ha Hb.
  apply vote_iff_twice_count in Ha. apply vote_iff_twice_count in Hb.
  destruct (str_eq_dec a b) as [E | Hne]; [exact E | exfalso].
  pose proof (count_occ_two answers a b Hne). lia.
Qed.

Lemma calculate_majority_vote_unique_witness :
  calculate_majority_vote [py "B"; py "A"; py "B"] (py "B") = true
  /\ py "B" = py "B".
Proof.
  split; [reflexivity |].
  apply (calculate_majority_vote_unique [py "B"; py "A"; py "B"]);
    reflexivity.
Defined.

(** X2: the vote does not depend on the order of the answers. *)
Theorem calculate_majority_vote_permutation :
  forall (answers answers' : list str) (correct_answer : str),
    Permutation answers answers' ->
    calculate_majority_vote answers correct_answer
    = calculate_majority_vote answers' correct_answer.
Proof.
  intros answers answers' correct_answer Hperm.
  apply eq_true_iff_eq. rewrite !vote_iff_twice_count.
  rewrite (Permutation_length Hperm).
  rewrite (proj1 (Permutation_count_occ str_eq_dec answers answers') Hperm).
  reflexivity.
Qed.

Lemma calculate_majority_vote_permutation_witness :
  calculate_majority_vote [py "A"; py "B"; py "A"] (py "A")
  = calculate_majority_vote [py "B"; py "A"; py "A"] (py "A").
Proof.
  apply calculate_majority_vote_permutation.
  apply perm_swap.
Defined.

(** X3: a vote passes only for an answer that is in the list, and one
    more answer equal to the correct one never turns a pass into a fail,
    as one more answer different from it never turns a fail into a
    pass. *)
Theorem calculate_majority_vote_growth :
  forall (answers : list str) (correct_answer : str),
    (calculate_majority_vote answers correct_answer = true ->
     In correct_answer answers
     /\ calculate_majority_vote (answers ++ [correct_answer]) correct_answer
        = true)
    /\ (forall other,
          calculate_majority_vote answers correct_answer = false ->
          other <> correct_answer ->
          calculate_majority_vote (answers ++ [other]) correct_answer
          = false).
Proof.
  intros answers correct_answer. split.
  - intros H. apply vote_iff_twice_count in H. split.
    + apply (count_occ_In str_eq_dec). lia.
    + apply vote_iff_twice_count.
      rewrite length_app, count_occ_app. cbn [count_occ List.length].
      destruct (str_eq_dec correct_answer correct_answer); [lia | congruence].
  - intros other H Hne. apply not_true_iff_false.
    apply not_true_iff_false in H. intros K. apply H.
    apply vote_iff_twice_count. apply vote_iff_twice_count in K.
    rewrite length_app, count_occ_app in K.
    cbn [count_occ List.length] in K.
    destruct (str_eq_dec other correct_answer); [congruence | lia].
Qed.

Lemma calculate_majority_vote_growth_witness :
  (In (py "A") [py "A"]
   /\ calculate_majority_vote ([py "A"] ++ [py "A"]) (py "A") = true)
  /\ calculate_majority_vote ([py "A"; py "B"] ++ [py "C"]) (py "A") = false.
Proof.
  split.
  - apply (proj1 (calculate_majority_vote_growth [py "A"] (py "A"))).
    reflexivity.
  - apply (proj2 (calculate_majority_vote_growth [py "A"; py "B"] (py "A"))).
    + reflexivity.
    + discriminate.
Defined.

(* ================================================================== *)
(** * Batch extraction and the evaluation: what is logged and counted *)
(* ================================================================== *)

Lemma extract_multiple_answers_loop_run (outputs valid_answers : list str)
    (w : World) :
  extract_multiple_answers_loop outputs valid_answers w
  = (Return (valid_answers ++ successes outputs),
     {| requests := requests w;
        log := log w ++ map (fun output => (WARNING, ExtractionFailed output))
                            (dropped outputs);
        stdout := stdout w |}).
Proof.
  revert valid_answers w.
  induction outputs as [| output rest IH]; intros valid_answers w.
  - simpl. rewrite !app_nil_r. destruct w; reflexivity.
  - simpl extract_multiple_answers_loop. step_monad.
    unfold dropped, extracts. simpl filter.
    destruct (extract_single_answer output) as [answer | e] eqn:E.
    + rewrite IH, <- app_assoc. reflexivity.
    + rewrite (extract_single_answer_raises _ _ E). simpl.
      rewrite IH. simpl. rewrite <- app_assoc. reflexivity.
Qed.

Lemma successes_dropped_length (outputs : list str) :
  (List.length (successes outputs) + List.length (dropped outputs)
   = List.length outputs)%nat.
Proof.
  induction outputs as [| output rest IH]; [reflexivity |].
  unfold dropped, extracts in *. simpl.
  destruct (extract_single_answer output); simpl; lia.
Qed.

(** X4: batch extraction logs one warning for each output it drops, in
    order, and nothing else; it sends no request and prints nothing.
    Answers returned and warnings logged add up to the outputs given. *)
Theorem extract_multiple_answers_logs_each_failure :
  forall (outputs : list str) (w : World),
    let w' := snd (extract_multiple_answers outputs w) in
    log w' = log w ++ map (fun output => (WARNING, ExtractionFailed output))
                          (dropped outputs)
    /\ requests w' = requests w
    /\ stdout w' = stdout w
    /\ (List.length (successes outputs)
        + (List.length (log w') - List.length (log w))
        = List.length outputs)%nat.
Proof.
  intros outputs w. unfold extract_multiple_answers.
  rewrite extract_multiple_answers_loop_run. simpl.
  repeat split.
  rewrite length_app, length_map.
  pose proof (successes_dropped_length outputs). lia.
Qed.

Lemma successes_of_extracting (outputs : list str) :
  successes (filter extracts outputs) = successes outputs.
Proof.
  induction outputs as [| output rest IH]; [reflexivity |].
  simpl. unfold extracts at 1.
  destruct (extract_single_answer output) as [answer | e] eqn:E.
  - simpl. rewrite E, IH. reflexivity.
  - exact IH.
Qed.

Lemma eval_majority_vote_result (model_outputs : list str) (answer : str)
    (w : World) :
  fst (eval_majority_vote model_outputs answer w)
  = match successes model_outputs with
    | [] => Raise (ValueError
              "Failed to extract any valid answers from model outputs")
    | answers =>
        Return (calculate_majority_vote answers answer, answers)
    end.
Proof.
  unfold eval_majority_vote, bind, extract_multiple_answers.
  rewrite extract_multiple_answers_loop_run. simpl.
  destruct (successes model_outputs); reflexivity.
Qed.

(** X5: the evaluation votes on the extracted answers alone.  Outputs
    that hold no answer count neither for nor against: removing them
    from the outputs changes nothing, and the vote passes exactly when
    more than half of the extracted answers are the correct one. *)
Theorem eval_majority_vote_ignores_dropped :
  forall (model_outputs : list str) (answer : str) (w w' : World),
    fst (eval_majority_vote model_outputs answer w)
    = fst (eval_majority_vote (filter extracts model_outputs) answer w')
    /\ forall result answers,
         fst (eval_majority_vote model_outputs answer w)
         = Return (result, answers) ->
         answers = successes model_outputs
         /\ (result = true <->
             Z.of_nat (List.length answers)
             < 2 * Z.of_nat (count_occ str_eq_dec answers answer)).
Proof.
  intros model_outputs answer w w'. split.
  - rewrite !eval_majority_vote_result, successes_of_extracting.
    reflexivity.
  - intros result answers H. rewrite eval_majority_vote_result in H.
    destruct (successes model_outputs) as [| a rest]; [discriminate |].
    injection H as <- <-. split; [reflexivity |].
    exact (vote_iff_twice_count (a :: rest) answer).
Qed.

Lemma eval_majority_vote_ignores_dropped_witness :
  fst (eval_majority_vote
         [py "no idea"; py "Final Answer: C"; py "?"; py "hm"] (py "C")
         initial_world)
  = Return (true, [py "C"]).
Proof.
  destruct (eval_majority_vote_ignores_dropped
              [py "no idea"; py "Final Answer: C"; py "?"; py "hm"] (py "C")
              initial_world initial_world) as (H & _).
  rewrite H. reflexivity.
Defined.

Lemma successes_in_A_F (outputs : list str) (a : str) :
  In a (successes outputs) -> In a ANSWER_LETTERS.
Proof.
  induction outputs as [| output rest IH]; simpl; [tauto |].
  rewrite in_app_iff. intros [H | H]; [| exact (IH H)].
  destruct (extract_single_answer output) as [answer | e] eqn:E;
    [| destruct H].
  destruct H as [<- | []].
  destruct (returned_answer_is_letter output answer E) as (c & Hc & ->).
  apply answer_letter_upper. exact Hc.
Qed.

(** X6: a question whose answer key is not one of the strings A to F (a
    lower-case key, a longer string) never passes: whenever the
    evaluation returns, its result is false. *)
Theorem eval_majority_vote_key_outside_A_F :
  forall (model_outputs : list str) (answer : str) (w : World)
         (result : bool) (answers : list str),
    ~ In answer ANSWER_LETTERS ->
    fst (eval_majority_vote model_outputs answer w)
    = Return (result, answers) ->
    result = false.
Proof.
  intros model_outputs answer w result answers Hkey H.
  rewrite eval_majority_vote_result in H.
  destruct (successes model_outputs) as [| a rest] eqn:S; [discriminate |].
  injection H as <- _. apply not_true_iff_false. intros V.
  apply (proj1 (vote_iff_twice_count (a :: rest) answer)) in V.
  assert (Hin : In answer (a :: rest))
    by (apply (count_occ_In str_eq_dec); lia).
  rewrite <- S in Hin. exact (Hkey (successes_in_A_F _ _ Hin)).
Qed.

Lemma eval_majority_vote_key_outside_A_F_witness :
  ~ In (py "b") ANSWER_LETTERS
  /\ fst (eval_majority_vote [py "Final Answer: b"; py "Final Answer: B"]
            (py "b") initial_world)
     = Return (calculate_majority_vote [py "B"; py "B"] (py "b"),
               [py "B"; py "B"])
  /\ calculate_majority_vote [py "B"; py "B"] (py "b") = false.
Proof.
  assert (Hkey : ~ In (py "b") ANSWER_LETTERS).
  { intros H. vm_compute in H.
    repeat (destruct H as [H | H]; [discriminate |]). exact H. }
  split; [exact Hkey |]. split; [reflexivity |].
  apply (eval_majority_vote_key_outside_A_F
           [py "Final Answer: b"; py "Final Answer: B"] (py "b")
           initial_world _ [py "B"; py "B"] Hkey).
  reflexivity.
Defined.

(* ================================================================== *)
(** * Extraction: what surrounds and what follows the answer *)
(* ================================================================== *)

Lemma lstrip_head_not_space (s : str) (c : codepoint) (r : str) :
  lstrip s = c :: r -> isspace c = false.
Proof.
  induction s as [| x s IH]; simpl; [discriminate |].
  destruct (isspace x) eqn:E; [exact IH |].
  intros H. injection H as <- _. exact E.
Qed.

Lemma lstrip_app_spaces (s spaces : str) :
  Forall (fun c => isspace c = true) spaces ->
  lstrip (s ++ spaces) = [] /\ lstrip s = []
  \/ lstrip (s ++ spaces) = lstrip s ++ spaces.
Proof.
  intros Hsp. destruct (lstrip_split s) as (sp & Hs & Hf).
  destruct (lstrip s) as [| c r] eqn:L.
  - left. split; [| reflexivity].
    rewrite app_nil_r in Hs. subst sp.
    rewrite lstrip_spaces_app by assumption.
    rewrite <- (app_nil_r spaces). rewrite lstrip_spaces_app by assumption.
    reflexivity.
  - right. rewrite Hs at 1. rewrite <- app_assoc.
    rewrite lstrip_spaces_app by assumption. simpl.
    rewrite (lstrip_head_not_space s c r L). reflexivity.
Qed.

Lemma rstrip_app_spaces (s spaces : str) :
  Forall (fun c => isspace c = true) spaces ->
  rstrip (s ++ spaces) = rstrip s.
Proof.
  intros Hsp. unfold rstrip. rewrite rev_app_distr.
  rewrite lstrip_spaces_app by (apply Forall_rev; assumption).
  reflexivity.
Qed.

Lemma strip_padding (before s after : str) :
  Forall (fun c => isspace c = true) before ->
  Forall (fun c => isspace c = true) after ->
  strip (before ++ s ++ after) = strip s.
Proof.
  intros Hb Ha. unfold strip.
  rewrite lstrip_spaces_app by assumption.
  destruct (lstrip_app_spaces s after Ha) as [[E1 E2] | E].
  - rewrite E1, E2. reflexivity.
  - rewrite E. apply rstrip_app_spaces. assumption.
Qed.

(** X7: whitespace around a response does not matter: a response
    padded with whitespace at either end extracts as the response. *)
Theorem extract_single_answer_padding :
  forall (before output after : str),
    Forall (fun c => isspace c = true) before ->
    Forall (fun c => isspace c = true) after ->
    extract_single_answer (before ++ output ++ after)
    = extract_single_answer output.
Proof.
  intros before output after Hb Ha. unfold extract_single_answer.
  rewrite strip_padding by assumption. reflexivity.
Qed.

Lemma extract_single_answer_padding_witness :
  extract_single_answer
    ([10; 32]%N ++ py "Final Answer: e" ++ [32; 160; 13; 10]%N)
  = Return (py "E").
Proof.
  refine (eq_trans (extract_single_answer_padding [10; 32]%N
                      (py "Final Answer: e") [32; 160; 13; 10]%N _ _) _).
  - repeat constructor.
  - repeat constructor.
  - reflexivity.
Defined.

Lemma stands_for_F (x : codepoint) :
  stands_for 70%N x <-> x = 70%N \/ x = 102%N.
Proof.
  rewrite stands_for_ascii by reflexivity.
  change (caseless_variants 70%N) with [70%N; 102%N]. simpl.
  intuition congruence.
Qed.

(** A character accepted for a pattern character none of whose variants
    is F or f is not accepted for F. *)
Lemma stands_for_apart (p x : codepoint) :
  (p <? 128)%N = true ->
  existsb (fun v => (v =? 70) || (v =? 102))%N (caseless_variants p) = false ->
  stands_for p x -> ~ stands_for 70%N x.
Proof.
  intros Hp Hv Hx HF. apply N.ltb_lt in Hp.
  apply (stands_for_ascii p x Hp) in Hx. apply stands_for_F in HF.
  assert (K : existsb (fun v => (v =? 70) || (v =? 102))%N
                (caseless_variants p) = true).
  { apply existsb_exists. exists x. split; [exact Hx |].
    bool_to_prop. exact HF. }
  congruence.
Qed.

Lemma space_is_not_F (x : codepoint) :
  isspace x = true -> ~ stands_for 70%N x.
Proof.
  intros Hs HF. apply stands_for_F in HF.
  destruct HF as [-> | ->]; discriminate.
Qed.

Lemma marker_tail_apart (ps marker : str) :
  forallb (fun p => (p <? 128)%N
                    && negb (existsb (fun v => (v =? 70) || (v =? 102))%N
                               (caseless_variants p))) ps = true ->
  Forall2 stands_for ps marker ->
  Forall (fun x => ~ stands_for 70%N x) marker.
Proof.
  intros Hps Hf. induction Hf as [| p x ps marker Hx _ IH];
    [constructor |].
  simpl in Hps. apply andb_true_iff in Hps. destruct Hps as (Hp & Hps).
  apply andb_true_iff in Hp. destruct Hp as (Hp & Hv).
  apply negb_true_iff in Hv.
  constructor; [exact (stands_for_apart p x Hp Hv Hx) | exact (IH Hps)].
Qed.

(** The marker starts with F or f and holds no other. *)
Lemma marker_shape (marker : str) :
  Forall2 stands_for (py "Final Answer:") marker ->
  exists f rest,
    marker = f :: rest /\ stands_for 70%N f
    /\ Forall (fun x => ~ stands_for 70%N x) rest.
Proof.
  intros Hf.
  assert (P : py "Final Answer:" = 70%N :: py "inal Answer:") by reflexivity.
  rewrite P in Hf. inversion Hf as [| p f ps rest Hp Hrest]; subst.
  exists f, rest. repeat split; [exact Hp |].
  apply (marker_tail_apart (py "inal Answer:")); [reflexivity | exact Hrest].
Qed.

(** Where the first [f] of a list lies, when a prefix [Y] of the list
    holds none. *)
Lemma split_at_first {A} (P : A -> Prop) (l1 R Y Z : list A) (f : A) :
  l1 ++ f :: R = Y ++ Z ->
  P f ->
  Forall (fun x => ~ P x) Y ->
  exists l2, l1 = Y ++ l2 /\ Z = l2 ++ f :: R.
Proof.
  intros E Hf HY. destruct (app_eq_app _ _ _ _ E) as (l & [[E1 E2] | [E1 E2]]).
  - exists l. split; assumption.
  - destruct l as [| x l].
    + exists []. rewrite app_nil_r in E1. simpl in E2. subst.
      rewrite app_nil_r. split; reflexivity.
    + exfalso. simpl in E2. injection E2 as <- _.
      rewrite Forall_forall in HY. apply (HY f); [| exact Hf].
      rewrite E1. apply in_or_app. right. left. reflexivity.
Qed.

(** An occurrence of a longer text that starts before an occurrence of
    the text lies within the text. *)
Lemma occurrence_before_is_inside (s post : str) (m n : nat)
    (c c' : codepoint) :
  occurs_at s n c ->
  occurs_at (s ++ post) m c' ->
  (m < n)%nat ->
  occurs_at s m c'.
Proof.
  intros [pre0 marker0 sp0 post0 E0 Hl0 Hf0 _ _]
         [pre marker sp post' E Hl Hf Hs Hc] Hlt.
  destruct (marker_shape marker0 Hf0) as (f & rest0 & -> & HF & _).
  destruct (marker_shape marker Hf) as (h & rest & -> & _ & Hrest).
  remember (rest0 ++ sp0 ++ c :: post0) as tail0 eqn:T.
  assert (E0' : s = pre0 ++ f :: tail0) by (rewrite E0, T; reflexivity).
  clear E0 T Hf0.
  (* the text up to its F, against the longer text *)
  assert (E1 : pre0 ++ f :: (tail0 ++ post)
               = pre ++ h :: (rest ++ sp) ++ c' :: post').
  { rewrite <- app_assoc. simpl in E. rewrite <- E, E0', <- app_assoc.
    reflexivity. }
  destruct (app_eq_app _ _ _ _ E1) as (l & [[P1 P2] | [P1 P2]]).
  - (* [pre0 = pre ++ l], [l] not empty *)
    destruct l as [| x l].
    { rewrite app_nil_r in P1. subst pre0. lia. }
    simpl in P2. injection P2 as <- P2.
    assert (HY : Forall (fun x => ~ stands_for 70%N x) (rest ++ sp)).
    { apply Forall_app. split; [exact Hrest |].
      eapply Forall_impl; [| exact Hs]. intros a Ha.
      apply space_is_not_F. exact Ha. }
    destruct (split_at_first (stands_for 70%N) _ _ _ _ _ (eq_sym P2) HF HY)
      as (l2 & -> & P4).
    apply (occurrence _ _ _ pre (h :: rest) sp (tl (l2 ++ f :: tail0)));
      try assumption.
    rewrite E0', P1. simpl.
    repeat (rewrite <- app_assoc; simpl). do 4 f_equal.
    destruct l2 as [| y l2]; simpl in P4 |- *;
      injection P4 as -> _; reflexivity.
  - (* [pre = pre0 ++ l]: the occurrence does not start before *)
    exfalso. subst pre. rewrite length_app in Hl. lia.
Qed.

(** X8: what follows the answer does not matter: when a response
    extracts to an answer, the response followed by any further text
    extracts to the same answer. *)
Theorem extract_single_answer_appended :
  forall (output more : str) (a : str),
    extract_single_answer output = Return a ->
    extract_single_answer (output ++ more) = Return a.
Proof.
  intros output more a H.
  pose proof (extract_single_answer_spec output) as S. rewrite H in S.
  destruct S as (n & c & Hc & Hmin & ->).
  assert (Hc' : occurs_at (output ++ more) n c)
    by exact (occurs_at_inside [] output more n c Hc).
  pose proof (extract_single_answer_spec (output ++ more)) as S'.
  destruct (extract_single_answer (output ++ more)) as [a' | e].
  - destruct S' as (n1 & c1 & Hc1 & Hmin1 & ->).
    assert (Hle : (n1 <= n)%nat) by exact (Hmin1 _ _ Hc').
    assert (Hn : n1 = n).
    { destruct (Nat.eq_dec n1 n) as [E | Hne]; [exact E | exfalso].
      assert (Hlt : (n1 < n)%nat) by lia.
      pose proof (occurrence_before_is_inside _ _ _ _ _ _ Hc Hc1 Hlt) as K.
      apply Hmin in K. lia. }
    subst n1. rewrite (occurs_at_unique _ _ _ _ Hc1 Hc'). reflexivity.
  - destruct S' as (_ & S'). exfalso. exact (S' _ _ Hc').
Qed.

Lemma extract_single_answer_appended_witness :
  extract_single_answer (py "Final Answer: D" ++ py ". Final Answer: A")
  = Return (py "D").
Proof.
  apply (extract_single_answer_appended (py "Final Answer: D")
           (py ". Final Answer: A") (py "D")).
  reflexivity.
Defined.

(* ================================================================== *)
(** * The client: which attempt decides, and what predict never does *)
(* ================================================================== *)

Section ClientOutcomes.

Variable chat : nat -> ChatRequest -> ChatOutcome.
Variable config : ModelConfig.
Variable prompt : str.

Lemma _make_chat_request_content (w : World) (content : str) :
  fst (_make_chat_request chat config prompt w) = Return content ->
  content <> [].
Proof.
  unfold _make_chat_request, bind, call_chat.
  destruct (chat (List.length (requests w)) (chat_arguments config prompt))
    as [response | e]; [| discriminate].
  unfold _validate_response.
  destruct (resp_message response) as [[[[| c s] |]] |];
    simpl; try discriminate.
  intros H. injection H as <-. discriminate.
Qed.

Lemma _make_chat_request_stdout (w : World) :
  stdout (snd (_make_chat_request chat config prompt w)) = stdout w.
Proof.
  unfold _make_chat_request, bind, call_chat.
  destruct (chat (List.length (requests w)) (chat_arguments config prompt))
    as [response | e]; [| reflexivity].
  unfold _validate_response.
  destruct (resp_message response) as [[[[| c s] |]] |]; reflexivity.
Qed.

Lemma _make_chat_request_warnings (w : World) :
  attempt_warnings (log (snd (_make_chat_request chat config prompt w)))
  = attempt_warnings (log w).
Proof.
  unfold _make_chat_request, bind, call_chat.
  destruct (chat (List.length (requests w)) (chat_arguments config prompt))
    as [response | e]; [| reflexivity].
  unfold _validate_response.
  destruct (resp_message response) as [[[[| c s] |]] |]; simpl;
    try reflexivity;
    unfold attempt_warnings; rewrite flat_map_app; simpl;
    apply app_nil_r.
Qed.

(** One turn of the loop whose request does not fail with an
    [Exception]: the loop ends with the outcome of the request. *)
Lemma predict_loop_decided (attempt : Z) (rest : list Z) (w : World)
    (r : Result str) :
  fst (_make_chat_request chat config prompt w) = r ->
  (forall e, r = Raise e -> is_Exception e = false) ->
  predict_loop chat config prompt (attempt :: rest) w
  = _make_chat_request chat config prompt w.
Proof.
  intros H Hr. simpl. unfold try_except.
  destruct (_make_chat_request chat config prompt w) as [r' w1].
  simpl in H. subst r'. destruct r as [content | e]; [reflexivity |].
  rewrite (Hr e eq_refl). reflexivity.
Qed.

(** Whatever the backend does, the loop sends at most one request per
    attempt, returns no empty content and raises no [Exception] other
    than [MaxRetriesExceededError]; it prints nothing. *)
Lemma predict_loop_invariants (attempts : list Z) :
  forall w : World,
    let result := fst (predict_loop chat config prompt attempts w) in
    let w' := snd (predict_loop chat config prompt attempts w) in
    (exists sent,
        (sent <= List.length attempts)%nat
        /\ (attempts <> [] -> (1 <= sent)%nat)
        /\ requests w'
           = requests w ++ repeat (chat_arguments config prompt) sent)
    /\ stdout w' = stdout w
    /\ (forall content, result = Return content -> content <> [])
    /\ (forall e, result = Raise e -> is_Exception e = true ->
                  exists msg cause, e = MaxRetriesExceededError msg cause).
Proof.
  induction attempts as [| attempt rest IH]; intros w.
  - simpl. repeat split.
    + exists 0%nat. repeat split; [lia | congruence |].
      simpl. rewrite app_nil_r. reflexivity.
    + discriminate.
    + intros e H _. injection H as <-. eauto.
  - pose proof (_make_chat_request_requests chat config prompt w) as Hr.
    pose proof (_make_chat_request_stdout w) as Ho.
    pose proof (_make_chat_request_content w) as Hc.
    simpl predict_loop. unfold try_except.
    destruct (_make_chat_request chat config prompt w) as [[content | e] w1];
      simpl in Hr, Ho, Hc.
    + simpl. repeat split.
      * exists 1%nat.
           repeat split; [simpl; lia | intros _; lia | exact Hr].
      * exact Ho.
      * intros c H. injection H as <-. apply Hc. reflexivity.
      * discriminate.
    + destruct (is_Exception e) eqn:Ex.
      * unfold bind at 1, logging at 1.
        destruct (attempt =? max_retries config - 1).
        -- simpl. repeat split.
           ++ exists 1%nat.
           repeat split; [simpl; lia | intros _; lia | exact Hr].
           ++ exact Ho.
           ++ discriminate.
           ++ intros e' H _. injection H as <-. eauto.
        -- match goal with
           | |- context [predict_loop _ _ _ rest ?w2] =>
               specialize (IH w2); simpl in IH;
               destruct IH as ((sent & Hle & _ & Hreq) & Hout & Hres)
           end.
           repeat split.
           ++ exists (S sent).
              repeat split; [simpl; lia | intros _; lia |].
              simpl. rewrite Hreq, Hr, <- app_assoc. reflexivity.
           ++ exact (eq_trans Hout Ho).
           ++ apply Hres.
           ++ apply Hres.
      * simpl. repeat split.
        -- exists 1%nat.
           repeat split; [simpl; lia | intros _; lia | exact Hr].
        -- exact Ho.
        -- discriminate.
        -- intros e' H He'. injection H as <-. congruence.
Qed.

End ClientOutcomes.

Lemma range_length (n : Z) : List.length (range n) = Z.to_nat n.
Proof. unfold range. rewrite length_map, length_seq. reflexivity. Qed.

(** X9: [predict] never returns an empty string, and the only
    [Exception] it raises is [MaxRetriesExceededError]: a backend error
    or an empty response is never raised as such. *)
Theorem predict_outcomes :
  forall (chat : nat -> ChatRequest -> ChatOutcome) (config : ModelConfig)
         (prompt : str) (w : World),
    (forall content,
        fst (predict chat config prompt w) = Return content ->
        content <> [])
    /\ (forall e,
          fst (predict chat config prompt w) = Raise e ->
          is_Exception e = true ->
          exists msg cause, e = MaxRetriesExceededError msg cause).
Proof.
  intros chat config prompt w. unfold predict.
  destruct (predict_loop_invariants chat config prompt
              (range (max_retries config)) w) as (_ & _ & Hc & He).
  split; [exact Hc | exact He].
Qed.

Lemma predict_outcomes_witness :
  fst (predict third_time_lucky (llama 3) (py "Which one?") initial_world)
  = Return (py "Final Answer: D")
  /\ py "Final Answer: D" <> [].
Proof.
  split; [reflexivity |].
  apply (proj1 (predict_outcomes third_time_lucky (llama 3)
                  (py "Which one?") initial_world)).
  reflexivity.
Defined.

(** X10: [predict] sends at most [max_retries] requests (none when
    [max_retries <= 0], at least one otherwise).  Every one of them names
    the configured model, holds the prompt as its single message, of
    role user, and carries the configured temperature, the configured
    [max_tokens] as [num_predict] and the configured [top_p].  The
    earlier requests and the standard output stay as they were. *)
Theorem predict_requests_bounded :
  forall (chat : nat -> ChatRequest -> ChatOutcome) (config : ModelConfig)
         (prompt : str) (w : World),
    exists sent : nat,
      Z.of_nat sent <= Z.max 0 (max_retries config)
      /\ (1 <= max_retries config -> (1 <= sent)%nat)
      /\ requests (snd (predict chat config prompt w))
         = requests w
           ++ repeat
                {| req_model := model_name config;
                   req_messages :=
                     [ {| msg_role := py "user"; msg_content := prompt |} ];
                   req_options :=
                     {| opt_temperature := temperature config;
                        opt_num_predict := max_tokens config;
                        opt_top_p := top_p config |} |}
                sent
      /\ stdout (snd (predict chat config prompt w)) = stdout w.
Proof.
  intros chat config prompt w. unfold predict.
  destruct (predict_loop_invariants chat config prompt
              (range (max_retries config)) w)
    as ((sent & Hle & Hpos & Hreq) & Hout & _).
  rewrite range_length in Hle.
  exists sent. repeat split; [lia | | exact Hreq | exact Hout].
  intros H. apply Hpos. rewrite (range_pos _ H). discriminate.
Qed.

#[warnings="-inexact-float"] Lemma predict_requests_bounded_witness :
  exists sent : nat,
    (1 <= sent <= 2)%nat
    /\ requests (snd (predict refusing_chat (llama 2) (py "Which one?")
                        initial_world))
       = repeat
           {| req_model := py "llama3.1";
              req_messages :=
                [ {| msg_role := py "user";
                     msg_content := py "Which one?" |} ];
              req_options :=
                {| opt_temperature := 0.7%float;
                   opt_num_predict := 2048;
                   opt_top_p := 0.95%float |} |}
           sent.
Proof.
  destruct (predict_requests_bounded refusing_chat (llama 2)
              (py "Which one?") initial_world)
    as (sent & Hle & Hpos & Hreq & _).
  exists sent. split; [| exact Hreq].
  split; [apply Hpos; simpl; lia | simpl in Hle; lia].
Defined.

Section DecisiveAttempt.

Variable chat : nat -> ChatRequest -> ChatOutcome.
Variable config : ModelConfig.
Variable prompt : str.

Lemma after_failed_attempt_warnings (attempt : Z) (e : exn) (w : World) :
  attempt_warnings
    (log (after_failed_attempt chat config prompt attempt e w))
  = attempt_warnings (log w)
    ++ [(attempt + 1, max_retries config, exn_message e)].
Proof.
  unfold after_failed_attempt, logging. simpl.
  unfold attempt_warnings at 1. rewrite flat_map_app. simpl.
  fold (attempt_warnings
          (log (snd (_make_chat_request chat config prompt w)))).
  rewrite _make_chat_request_warnings. reflexivity.
Qed.

(** The loop from attempt [i] on, when the next [k] requests fail and
    the one after them does not. *)
Lemma predict_loop_after_failures (error_of : nat -> exn)
    (r : Result str) :
  (forall e, r = Raise e -> is_Exception e = false) ->
  forall (k i d : nat) (w : World),
    Z.of_nat (i + k + S d) = max_retries config ->
    (forall j, (j < k)%nat ->
       request_fails chat config prompt (List.length (requests w) + j)
                     (error_of (i + j)%nat)
       /\ is_Exception (error_of (i + j)%nat) = true) ->
    request_gives chat config prompt (List.length (requests w) + k) r ->
    exists w',
      predict_loop chat config prompt (map Z.of_nat (seq i (k + S d))) w
      = (r, w')
      /\ requests w'
         = requests w ++ repeat (chat_arguments config prompt) (S k)
      /\ attempt_warnings (log w')
         = attempt_warnings (log w)
           ++ map (fun j => (Z.of_nat j + 1, max_retries config,
                             exn_message (error_of j)))
                  (seq i k).
Proof.
  intros Hr. induction k as [| k IH]; intros i d w Hn Hfail Hgives.
  - rewrite Nat.add_0_r in Hgives. specialize (Hgives w eq_refl).
    change (map Z.of_nat (seq i (0 + S d)))
      with (Z.of_nat i :: map Z.of_nat (seq (S i) d)).
    rewrite (predict_loop_decided chat config prompt _ _ _ r Hgives Hr).
    pose proof (_make_chat_request_requests chat config prompt w) as Hq.
    pose proof (_make_chat_request_warnings chat config prompt w) as Hw.
    destruct (_make_chat_request chat config prompt w) as [r' w'].
    simpl in Hgives, Hq, Hw. subst r'. exists w'.
    repeat split; [exact Hq |]. simpl. rewrite app_nil_r. exact Hw.
  - destruct (Hfail 0%nat (Nat.lt_0_succ _)) as (Hf & Hex).
    repeat rewrite Nat.add_0_r in Hf. rewrite Nat.add_0_r in Hex.
    specialize (Hf w eq_refl).
    change (map Z.of_nat (seq i (S k + S d)))
      with (Z.of_nat i :: map Z.of_nat (seq (S i) (k + S d))).
    rewrite (predict_loop_fails chat config prompt _ _ _ _ Hf Hex).
    replace (Z.of_nat i =? max_retries config - 1) with false
      by (symmetry; apply Z.eqb_neq; lia).
    destruct (IH (S i) d
                (after_failed_attempt chat config prompt (Z.of_nat i)
                   (error_of i) w))
      as (w' & Hp & Hreq & Hwarn).
    + lia.
    + intros j Hj.
      rewrite after_failed_attempt_requests, length_app. simpl.
      replace (List.length (requests w) + 1 + j)%nat
        with (List.length (requests w) + S j)%nat by lia.
      replace (S (i + j))%nat with (i + S j)%nat by lia.
      apply Hfail. lia.
    + rewrite after_failed_attempt_requests, length_app. simpl.
      replace (List.length (requests w) + 1 + k)%nat
        with (List.length (requests w) + S k)%nat by lia.
      exact Hgives.
    + exists w'. repeat split.
      * exact Hp.
      * rewrite Hreq, after_failed_attempt_requests, <- app_assoc.
        reflexivity.
      * rewrite Hwarn, after_failed_attempt_warnings, <- app_assoc.
        reflexivity.
Qed.

End DecisiveAttempt.

(** X11: the first request that does not fail with an [Exception]
    decides.  When the first [k] requests fail and request [k], with
    [k < max_retries], returns a content or raises an error that is not
    an [Exception] (a keyboard interrupt), [predict] ends with that very
    outcome after exactly [k + 1] requests, and its log holds one warning
    per failed attempt, numbered from 1, with the text of its error. *)
Theorem predict_decisive_attempt :
  forall (chat : nat -> ChatRequest -> ChatOutcome) (config : ModelConfig)
         (prompt : str) (w : World) (k : nat) (error_of : nat -> exn)
         (r : Result str),
    Z.of_nat k < max_retries config ->
    (forall e, r = Raise e -> is_Exception e = false) ->
    (forall j, (j < k)%nat ->
       request_fails chat config prompt (List.length (requests w) + j)
                     (error_of j)
       /\ is_Exception (error_of j) = true) ->
    request_gives chat config prompt (List.length (requests w) + k) r ->
    exists w',
      predict chat config prompt w = (r, w')
      /\ requests w'
         = requests w ++ repeat (chat_arguments config prompt) (S k)
      /\ attempt_warnings (log w')
         = attempt_warnings (log w)
           ++ map (fun j => (Z.of_nat j + 1, max_retries config,
                             exn_message (error_of j)))
                  (seq 0 k).
Proof.
  intros chat config prompt w k error_of r Hk Hr Hfail Hgives.
  unfold predict, range.
  replace (Z.to_nat (max_retries config))
    with (k + S (Z.to_nat (max_retries config) - k - 1))%nat by lia.
  apply (predict_loop_after_failures chat config prompt error_of r Hr);
    [lia | exact Hfail | exact Hgives].
Qed.

Lemma predict_decisive_attempt_witness :
  exists w',
    predict third_time_lucky (llama 3) (py "Which one?") initial_world
    = (Return (py "Final Answer: D"), w')
    /\ requests w' = repeat (chat_arguments (llama 3) (py "Which one?")) 3
    /\ attempt_warnings (log w')
       = [(1, 3, "timed out"%string);
          (2, 3, "No content in response"%string)].
Proof.
  apply (predict_decisive_attempt third_time_lucky (llama 3)
           (py "Which one?") initial_world 2
           (fun j => match j with
                     | O => BackendException "timed out"
                     | _ => EmptyResponseError "No content in response"
                     end)
           (Return (py "Final Answer: D"))).
  - simpl. lia.
  - discriminate.
  - intros j Hj. destruct j as [| [| j]]; [| | lia];
      (split; [| reflexivity]); intros w Hw;
      unfold _make_chat_request, bind, call_chat; rewrite Hw; reflexivity.
  - intros w Hw.
    unfold _make_chat_request, bind, call_chat; rewrite Hw; reflexivity.
Defined.

(* ================================================================== *)
(** * The runner: responses collected, requests sent, score reported *)
(* ================================================================== *)

Lemma predict_sent (chat : nat -> ChatRequest -> ChatOutcome)
    (config : ModelConfig) (prompt : str) (w : World) :
  exists sent : nat,
    (sent <= Z.to_nat (max_retries config))%nat
    /\ (forall content,
          fst (predict chat config prompt w) = Return content ->
          (1 <= sent)%nat /\ content <> [])
    /\ requests (snd (predict chat config prompt w))
       = requests w ++ repeat (chat_arguments config prompt) sent
    /\ stdout (snd (predict chat config prompt w)) = stdout w.
Proof.
  unfold predict.
  destruct (predict_loop_invariants chat config prompt
              (range (max_retries config)) w)
    as ((sent & Hle & Hpos & Hreq) & Hout & Hc & _).
  rewrite range_length in Hle.
  exists sent. repeat split; try assumption.
  - apply Hpos. intros E. rewrite E in H. discriminate.
  - exact (Hc _ H).
Qed.

Lemma eval_majority_vote_world (model_outputs : list str) (answer : str)
    (w : World) :
  requests (snd (eval_majority_vote model_outputs answer w)) = requests w
  /\ stdout (snd (eval_majority_vote model_outputs answer w)) = stdout w.
Proof.
  unfold eval_majority_vote, bind, extract_multiple_answers.
  rewrite extract_multiple_answers_loop_run.
  destruct (successes model_outputs); split; reflexivity.
Qed.

Lemma _evaluate_responses_world (responses : list str) (question : Question)
    (w : World) :
  requests (snd (_evaluate_responses responses question w)) = requests w
  /\ stdout (snd (_evaluate_responses responses question w)) = stdout w
  /\ (forall score,
        fst (_evaluate_responses responses question w) = Return score ->
        score = 0 \/ score = 1).
Proof.
  unfold _evaluate_responses, bind.
  destruct (eval_majority_vote_world responses (answer question) w)
    as (Hr & Ho).
  destruct (eval_majority_vote responses (answer question) w)
    as [[[result answers] | e] w1]; simpl in Hr, Ho.
  - simpl. split; [exact Hr | split; [exact Ho |]].
    intros score H. injection H as <-.
    destruct result; [right | left]; reflexivity.
  - simpl. split; [exact Hr | split; [exact Ho | discriminate]].
Qed.

Section Collecting.

Variable chat : nat -> ChatRequest -> ChatOutcome.
Variable self : Benchmark.
Variable question : Question.

Lemma _collect_responses_loop_invariants (rs : list Z) :
  forall (responses : list str) (w : World) (result : Result (list str))
         (w' : World),
    _collect_responses_loop chat self question rs responses w
    = (result, w') ->
    exists sent : nat,
      (sent <= List.length rs * Z.to_nat (max_retries (model self)))%nat
      /\ requests w'
         = requests w
           ++ repeat (chat_arguments (model self) (prompt question)) sent
      /\ stdout w' = stdout w
      /\ (forall collected,
            result = Return collected ->
            exists new,
              collected = responses ++ new
              /\ List.length new = List.length rs
              /\ Forall (fun response => response <> []) new
              /\ (List.length rs <= sent)%nat).
Proof.
  induction rs as [| r rest IH]; intros responses w result w' H.
  - simpl in H. injection H as <- <-. exists 0%nat.
    repeat split; [lia | | ].
    + simpl. rewrite app_nil_r. reflexivity.
    + intros collected H. injection H as <-. exists [].
      rewrite app_nil_r.
      split; [reflexivity |]. split; [reflexivity |].
      split; [apply Forall_nil | simpl; lia].
  - destruct (predict_sent chat (model self) (prompt question) w)
      as (sent & Hle & Hret & Hreq & Hout).
    simpl in H. unfold bind at 1 in H.
    destruct (predict chat (model self) (prompt question) w)
      as [[response | e] w1]; simpl in Hret, Hreq, Hout.
    + destruct (Hret response eq_refl) as (Hpos & Hne).
      unfold bind at 1, logging at 1 in H.
      apply IH in H. simpl in H.
      destruct H as (sent' & Hle' & Hreq' & Hout' & Hres).
      exists (sent + sent')%nat. repeat split.
      * simpl. lia.
      * rewrite Hreq', Hreq, repeat_app, app_assoc. reflexivity.
      * exact (eq_trans Hout' Hout).
      * intros collected H. destruct (Hres collected H)
          as (new & -> & Hlen & Hall & Hsent).
        exists (response :: new). rewrite <- app_assoc.
        split; [reflexivity |].
        split; [simpl; lia |].
        split; [constructor; assumption | simpl; lia].
    + injection H as <- <-. exists sent. repeat split.
      * simpl. lia.
      * exact Hreq.
      * exact Hout.
      * discriminate.
Qed.

Lemma _collect_responses_invariants (w : World)
    (result : Result (list str)) (w' : World) :
  _collect_responses chat self question w = (result, w') ->
  exists sent : nat,
    (sent <= Z.to_nat (num_responses self)
             * Z.to_nat (max_retries (model self)))%nat
    /\ requests w'
       = requests w
         ++ repeat (chat_arguments (model self) (prompt question)) sent
    /\ stdout w' = stdout w
    /\ (forall responses,
          result = Return responses ->
          List.length responses = Z.to_nat (num_responses self)
          /\ Forall (fun response => response <> []) responses
          /\ (Z.to_nat (num_responses self) <= sent)%nat).
Proof.
  unfold _collect_responses, bind at 1, logging at 1. intros H.
  apply _collect_responses_loop_invariants in H. simpl in H.
  destruct H as (sent & Hle & Hreq & Hout & Hres).
  rewrite range_length in Hle.
  exists sent. repeat split; try assumption.
  - destruct (Hres _ H) as (new & -> & Hlen & _).
    rewrite range_length in Hlen. exact Hlen.
  - destruct (Hres _ H) as (new & -> & _ & Hall & _). exact Hall.
  - destruct (Hres _ H) as (new & _ & _ & _ & Hsent).
    rewrite range_length in Hsent. exact Hsent.
Qed.

End Collecting.

(** X12: when the collection for a question returns, it returns exactly
    [num_responses] responses, none of them empty, and it has sent at
    least one request per response and at most [max_retries] per
    response, all of them for the prompt of the question. *)
Theorem _collect_responses_count :
  forall (chat : nat -> ChatRequest -> ChatOutcome) (self : Benchmark)
         (question : Question) (w w' : World) (responses : list str),
    _collect_responses chat self question w = (Return responses, w') ->
    List.length responses = Z.to_nat (num_responses self)
    /\ Forall (fun response => response <> []) responses
    /\ exists sent : nat,
         (Z.to_nat (num_responses self) <= sent
          <= Z.to_nat (num_responses self)
             * Z.to_nat (max_retries (model self)))%nat
         /\ requests w'
            = requests w
              ++ repeat (chat_arguments (model self) (prompt question)) sent.
Proof.
  intros chat self question w w' responses H.
  destruct (_collect_responses_invariants chat self question w _ _ H)
    as (sent & Hle & Hreq & _ & Hres).
  destruct (Hres responses eq_refl) as (Hlen & Hall & Hsent).
  split; [exact Hlen |]. split; [exact Hall |].
  exists sent. split; [lia | exact Hreq].
Qed.

Lemma _collect_responses_count_witness :
  exists w',
    _collect_responses six_replies two_questions first_question
      initial_world
    = (Return [py "Final Answer: B"; py "I say. Final answer: b";
               py "Final Answer: A"], w')
    /\ exists sent : nat,
         (3 <= sent <= 9)%nat
         /\ requests w'
            = repeat (chat_arguments (llama 3) (py "First?")) sent.
Proof.
  eexists. split; [vm_compute; reflexivity |].
  match goal with
  | |- context [requests ?w'] =>
      destruct (_collect_responses_count six_replies two_questions
                  first_question initial_world w'
                  [py "Final Answer: B"; py "I say. Final answer: b";
                   py "Final Answer: A"] eq_refl)
        as (_ & _ & sent & Hle & Hreq)
  end.
  exists sent. split; [exact Hle | exact Hreq].
Defined.

Section Scoring.

Variable chat : nat -> ChatRequest -> ChatOutcome.
Variable self : Benchmark.

Lemma _process_question_invariants (question : Question) (w : World)
    (result : Result Z) (w' : World) :
  _process_question chat self question w = (result, w') ->
  (exists sent : nat,
      (sent <= Z.to_nat (num_responses self)
               * Z.to_nat (max_retries (model self)))%nat
      /\ requests w'
         = requests w
           ++ repeat (chat_arguments (model self) (prompt question)) sent)
  /\ stdout w' = stdout w
  /\ (forall score,
        result = Return score ->
        exists responses w1 vote answers,
          _collect_responses chat self question w = (Return responses, w1)
          /\ fst (eval_majority_vote responses (answer question) w1)
             = Return (vote, answers)
          /\ score = if vote then 1 else 0).
Proof.
  unfold _process_question, bind at 1. intros H.
  destruct (_collect_responses chat self question w)
    as [[responses | e] w1] eqn:C.
  - destruct (_collect_responses_invariants chat self question w _ _ C)
      as (sent & Hle & Hreq & Hout & _).
    destruct (_evaluate_responses_world responses question w1)
      as (Hr & Ho & _).
    rewrite H in Hr, Ho. simpl in Hr, Ho.
    split; [exists sent; split; [exact Hle | congruence] |].
    split; [congruence |].
    intros score ->. exists responses, w1.
    unfold _evaluate_responses, bind at 1 in H.
    destruct (eval_majority_vote responses (answer question) w1)
      as [[[vote answers] | e] w2]; [| discriminate].
    exists vote, answers. repeat split.
    simpl in H. injection H as <- _. reflexivity.
  - injection H as <- <-.
    destruct (_collect_responses_invariants chat self question w _ _ C)
      as (sent & Hle & Hreq & Hout & _).
    split; [exists sent; split; assumption |].
    split; [exact Hout | discriminate].
Qed.

(** What the running total leaves behind, whatever its outcome. *)
Lemma sum_scores_invariants (questions : list Question) :
  forall (total : Z) (w : World) (result : Result Z) (w' : World),
    sum_scores chat self questions total w = (result, w') ->
    (exists sent : list ChatRequest,
        (List.length sent
         <= List.length questions
            * (Z.to_nat (num_responses self)
               * Z.to_nat (max_retries (model self))))%nat
        /\ Forall (fun request =>
                     exists question,
                       In question questions
                       /\ request = chat_arguments (model self)
                                      (prompt question)) sent
        /\ requests w' = requests w ++ sent)
    /\ stdout w' = stdout w
    /\ (forall score,
          result = Return score ->
          exists votes,
            question_votes chat self w questions votes w'
            /\ score = total + passed votes).
Proof.
  induction questions as [| question rest IH];
    intros total w result w' H.
  - simpl in H. injection H as <- <-. split; [| split].
    + exists []. rewrite app_nil_r.
      split; [simpl; lia | split; [constructor | reflexivity]].
    + reflexivity.
    + intros score H. injection H as <-. exists [].
      split; [constructor | unfold passed; simpl; lia].
  - simpl in H. unfold bind at 1 in H.
    destruct (_process_question chat self question w)
      as [[score | e] w1] eqn:P.
    + destruct (_process_question_invariants question w _ _ P)
        as ((sent & Hle & Hreq) & Hout & Hscore).
      destruct (Hscore score eq_refl)
        as (responses & w2 & vote & answers & Hc & Hv & ->).
      destruct (IH _ _ _ _ H)
        as ((sent' & Hle' & Hall' & Hreq') & Hout' & Hres).
      split; [| split].
      * exists (repeat (chat_arguments (model self) (prompt question)) sent
                ++ sent').
        split; [rewrite length_app, repeat_length; simpl; lia |].
        split; [| rewrite Hreq', Hreq, app_assoc; reflexivity].
        apply Forall_app. split.
        -- apply Forall_forall. intros request Hin.
           apply repeat_spec in Hin. exists question.
           split; [left; reflexivity | exact Hin].
        -- eapply Forall_impl; [| exact Hall'].
           intros request (q & Hq & ->). exists q.
           split; [right; exact Hq | reflexivity].
      * congruence.
      * intros total' ->. destruct (Hres _ eq_refl) as (votes & Hvotes & ->).
        exists (vote :: votes). split.
        -- apply (votes_cons chat self w question rest responses w2 vote
                    answers votes w' Hc Hv).
           rewrite P. exact Hvotes.
        -- unfold passed. destruct vote; simpl; lia.
    + injection H as <- <-.
      destruct (_process_question_invariants question w _ _ P)
        as ((sent & Hle & Hreq) & Hout & _).
      split; [| split; [exact Hout | discriminate]].
      exists (repeat (chat_arguments (model self) (prompt question)) sent).
      split; [rewrite repeat_length; simpl; lia |].
      split; [| exact Hreq].
      apply Forall_forall. intros request Hin.
      apply repeat_spec in Hin. exists question.
      split; [left; reflexivity | exact Hin].
Qed.

Lemma passed_bounds (votes : list bool) :
  0 <= passed votes <= Z.of_nat (List.length votes).
Proof.
  unfold passed. pose proof (filter_length_le (fun vote => vote) votes). lia.
Qed.

End Scoring.

(** X13: [run] returns a score only when the benchmark has a question
    and the vote of every question returned; the score is then the
    percentage of the votes that passed, which are at most as many as
    the questions. *)
Theorem run_returns_only_scored :
  forall (chat : nat -> ChatRequest -> ChatOutcome) (self : Benchmark)
         (w : World) (final_score : float),
    fst (run chat self w) = Return final_score ->
    benchmark_data self <> []
    /\ exists votes w',
         question_votes chat self w (benchmark_data self) votes w'
         /\ 0 <= passed votes <= len (benchmark_data self)
         /\ final_score
            = (float_of_int (passed votes)
               / float_of_int (len (benchmark_data self))
               * float_of_int 100)%float.
Proof.
  intros chat self w final_score H. unfold run, bind at 1 in H.
  destruct (sum_scores chat self (benchmark_data self) 0 w)
    as [[total | e] w1] eqn:S; [| discriminate].
  destruct (sum_scores_invariants chat self _ _ _ _ _ S) as (_ & _ & Hres).
  destruct (Hres total eq_refl) as (votes & Hvotes & ->).
  unfold bind at 1, lift, int_truediv in H.
  destruct (len (benchmark_data self) =? 0) eqn:Z; [discriminate |].
  split.
  - intros E. rewrite E in Z. discriminate.
  - exists votes, w1. split; [exact Hvotes |]. split.
    + pose proof (passed_bounds votes) as B.
      rewrite (question_votes_length chat self _ _ _ _ Hvotes) in B.
      exact B.
    + simpl in H. injection H as <-. reflexivity.
Qed.

Lemma run_returns_only_scored_witness :
  fst (run six_replies two_questions initial_world) = Return 50%float
  /\ benchmark_data two_questions <> [].
Proof.
  split; [reflexivity |].
  apply (run_returns_only_scored six_replies two_questions initial_world
           50%float).
  reflexivity.
Defined.

(** [tenths] is a nearest integer: it is off the exact [x * 10] by at
    most one half. *)
Lemma tenths_nearest (m : positive) (e : Z) :
  e < 0 ->
  2 * Z.abs (10 * Z.pos m - tenths m e * 2 ^ (- e)) <= 2 ^ (- e).
Proof.
  intros He. unfold tenths.
  replace (0 <=? e) with false by (symmetry; apply Z.leb_gt; exact He).
  assert (Hd : 0 < 2 ^ (- e)) by (apply Z.pow_pos_nonneg; lia).
  set (d := 2 ^ (- e)) in *.
  pose proof (Z.div_mod (10 * Z.pos m) d ltac:(lia)) as Hdm.
  pose proof (Z.mod_pos_bound (10 * Z.pos m) d Hd) as Hr.
  set (q := (10 * Z.pos m) / d) in *.
  set (r := (10 * Z.pos m) mod d) in *.
  cbv zeta.
  destruct (Z.compare_spec (2 * r) d) as [Heq | Hlt | Hgt];
    [destruct (Z.even q) | |]; nia.
Qed.

(** X14: [run] prints the final score exactly once, and only when it
    returns: what it prints, and logs at level INFO as its last record,
    is the returned score rounded to one decimal; a run that raises
    prints nothing. *)
Theorem run_prints_final_score_once :
  forall (chat : nat -> ChatRequest -> ChatOutcome) (self : Benchmark)
         (w w' : World) (result : Result float),
    run chat self w = (result, w') ->
    match result with
    | Return final_score =>
        stdout w' = stdout w ++ [FinalScore (format_1f final_score)]
        /\ exists records,
             log w' = records ++ [(INFO, FinalScore (format_1f final_score))]
    | Raise _ => stdout w' = stdout w
    end.
Proof.
  intros chat self w w' result H. unfold run, bind at 1 in H.
  destruct (sum_scores chat self (benchmark_data self) 0 w)
    as [[total | e] w1] eqn:S.
  - destruct (sum_scores_invariants chat self _ _ _ _ _ S) as (_ & Hout & _).
    unfold bind at 1, lift, int_truediv in H.
    destruct (len (benchmark_data self) =? 0).
    + injection H as <- <-. exact Hout.
    + simpl in H. injection H as <- <-. simpl. split.
      * rewrite Hout. reflexivity.
      * eexists. reflexivity.
  - injection H as <- <-.
    destruct (sum_scores_invariants chat self _ _ _ _ _ S) as (_ & Hout & _).
    exact Hout.
Qed.

Lemma run_prints_final_score_once_witness :
  stdout (snd (run one_reply_each three_questions initial_world))
  = [FinalScore "66.7"]
  /\ stdout (snd (run three_replies_then_chatter two_questions
                    initial_world))
     = [].
Proof.
  split.
  - apply (run_prints_final_score_once one_reply_each three_questions
             initial_world _ (Return (percentage 2 3))).
    vm_compute. reflexivity.
  - apply (run_prints_final_score_once three_replies_then_chatter
             two_questions initial_world _
             (Raise
                (ValueError
                   "Failed to extract any valid answers from model outputs"))).
    vm_compute. reflexivity.
Defined.

(** X15: whatever its outcome, [run] sends at most
    questions * [num_responses] * [max_retries] requests, each of them
    for the prompt of a question of the benchmark, and keeps the
    requests sent before it. *)
Theorem run_requests_bounded :
  forall (chat : nat -> ChatRequest -> ChatOutcome) (self : Benchmark)
         (w : World),
    exists sent : list ChatRequest,
      requests (snd (run chat self w)) = requests w ++ sent
      /\ (List.length sent
          <= List.length (benchmark_data self)
             * (Z.to_nat (num_responses self)
                * Z.to_nat (max_retries (model self))))%nat
      /\ Forall (fun request =>
                   exists question,
                     In question (benchmark_data self)
                     /\ request = chat_arguments (model self)
                                    (prompt question)) sent.
Proof.
  intros chat self w. unfold run, bind at 1.
  destruct (sum_scores chat self (benchmark_data self) 0 w)
    as [[total | e] w1] eqn:S;
    destruct (sum_scores_invariants chat self _ _ _ _ _ S)
      as ((sent & Hle & Hall & Hreq) & _ & _);
    exists sent; (split; [| split; assumption]).
  - unfold bind at 1, lift, int_truediv.
    destruct (len (benchmark_data self) =? 0); exact Hreq.
  - exact Hreq.
Qed.

(** X16: a response that cannot be collected aborts the run: when the
    questions before it were scored and the collection for a question
    raises, as [predict] does once its retries are used up, [run] raises
    that same error. *)
Theorem run_aborts_on_backend_failure :
  forall (chat : nat -> ChatRequest -> ChatOutcome) (self : Benchmark)
         (w w1 : World) (before after : list Question)
         (question : Question) (votes : list bool) (e : exn),
    benchmark_data self = before ++ question :: after ->
    question_votes chat self w before votes w1 ->
    fst (_collect_responses chat self question w1) = Raise e ->
    fst (run chat self w) = Raise e.
Proof.
  intros chat self w w1 before after question votes e Hdata Hv Hc.
  unfold run, bind at 1. rewrite Hdata.
  rewrite (sum_scores_prefix chat self w w1 _ votes Hv).
  simpl sum_scores. unfold bind at 1, _process_question, bind at 1.
  destruct (_collect_responses chat self question w1) as [r w2].
  simpl in Hc. subst r. reflexivity.
Qed.

Lemma run_aborts_on_backend_failure_witness :
  fst (run (scripted_chat [reply (py "Final Answer: B")]) one_question
         initial_world)
  = Raise (MaxRetriesExceededError
             "Failed to get response after 3 retries"
             (Some (BackendException "connection refused"))).
Proof.
  apply (run_aborts_on_backend_failure
           (scripted_chat [reply (py "Final Answer: B")]) one_question
           initial_world initial_world [] [] first_question []).
  - reflexivity.
  - apply votes_nil.
  - vm_compute. reflexivity.
Defined.

(** X17: with [num_responses <= 0] nothing is asked: on a benchmark
    with at least one question [run] sends no request and raises the
    [ValueError] of the evaluation, whatever the backend. *)
Theorem run_without_responses :
  forall (chat : nat -> ChatRequest -> ChatOutcome) (self : Benchmark)
         (w : World),
    num_responses self <= 0 ->
    benchmark_data self <> [] ->
    fst (run chat self w)
    = Raise (ValueError
               "Failed to extract any valid answers from model outputs")
    /\ requests (snd (run chat self w)) = requests w.
Proof.
  intros chat self w Hnone Hdata.
  destruct (benchmark_data self) as [| question rest] eqn:D; [congruence |].
  unfold run, bind at 1. rewrite D. simpl sum_scores.
  unfold bind at 1, _process_question, bind at 1, _collect_responses,
    bind at 1, logging at 1.
  rewrite (range_nonpos _ Hnone). simpl _collect_responses_loop.
  unfold ret at 1. split; reflexivity.
Qed.

Lemma run_without_responses_witness :
  fst (run six_replies
         {| model := llama 3; num_responses := 0;
            benchmark_data := [first_question] |} initial_world)
  = Raise (ValueError
             "Failed to extract any valid answers from model outputs").
Proof.
  apply (run_without_responses six_replies
           {| model := llama 3; num_responses := 0;
              benchmark_data := [first_question] |} initial_world).
  - simpl. lia.
  - discriminate.
Defined.

(* ================================================================== *)
(** * The client: what is logged when every request fails *)
(* ================================================================== *)

Section GivingUp.

Variable chat : nat -> ChatRequest -> ChatOutcome.
Variable config : ModelConfig.
Variable prompt : str.

Lemma predict_loop_all_fail_log (error_of : nat -> exn) :
  forall (k i : nat) (w : World),
    Z.of_nat (i + S k) = max_retries config ->
    (forall j, (j <= k)%nat ->
       request_fails chat config prompt (List.length (requests w) + j)
                     (error_of (i + j)%nat)
       /\ is_Exception (error_of (i + j)%nat) = true) ->
    let w' :=
      snd (predict_loop chat config prompt (map Z.of_nat (seq i (S k))) w) in
    attempt_warnings (log w')
    = attempt_warnings (log w)
      ++ map (fun j => (Z.of_nat j + 1, max_retries config,
                        exn_message (error_of j)))
             (seq i (S k))
    /\ exists records, log w' = records ++ [(ERROR, MaxRetriesExceeded)].
Proof.
  induction k as [| k IH]; intros i w Hn Hfail;
    destruct (Hfail 0%nat (Nat.le_0_l _)) as (Hf & Hex);
    repeat rewrite Nat.add_0_r in Hf; rewrite Nat.add_0_r in Hex;
    specialize (Hf w eq_refl);
    change (map Z.of_nat (seq i (S ?n)))
      with (Z.of_nat i :: map Z.of_nat (seq (S i) n));
    rewrite (predict_loop_fails chat config prompt _ _ _ _ Hf Hex).
  - replace (Z.of_nat i =? max_retries config - 1) with true
      by (symmetry; apply Z.eqb_eq; lia).
    unfold bind, logging, raise. simpl snd. simpl log. split.
    + unfold attempt_warnings at 1. rewrite flat_map_app. simpl.
      rewrite app_nil_r.
      fold (attempt_warnings
              (log (after_failed_attempt chat config prompt (Z.of_nat i)
                      (error_of i) w))).
      apply after_failed_attempt_warnings.
    + eexists. reflexivity.
  - replace (Z.of_nat i =? max_retries config - 1) with false
      by (symmetry; apply Z.eqb_neq; lia).
    destruct (IH (S i) (after_failed_attempt chat config prompt
                          (Z.of_nat i) (error_of i) w))
      as (Hwarn & Hlast).
    + lia.
    + intros j Hj.
      rewrite after_failed_attempt_requests, length_app. simpl.
      replace (List.length (requests w) + 1 + j)%nat
        with (List.length (requests w) + S j)%nat by lia.
      replace (S (i + j))%nat with (i + S j)%nat by lia.
      apply Hfail. lia.
    + split; [| exact Hlast].
      rewrite Hwarn, after_failed_attempt_warnings, <- app_assoc.
      reflexivity.
Qed.

End GivingUp.

(** X18: when every request fails and [max_retries >= 1], the log of
    [predict] holds one warning per attempt, numbered from 1 to
    [max_retries], each with the text of its error, and ends with the
    error record that the retries are exceeded. *)
Theorem predict_logs_every_failure :
  forall (chat : nat -> ChatRequest -> ChatOutcome) (config : ModelConfig)
         (prompt : str) (w : World) (error_of : nat -> exn),
    1 <= max_retries config ->
    (forall attempt,
        (attempt < Z.to_nat (max_retries config))%nat ->
        request_fails chat config prompt
          (List.length (requests w) + attempt) (error_of attempt)
        /\ is_Exception (error_of attempt) = true) ->
    attempt_warnings (log (snd (predict chat config prompt w)))
    = attempt_warnings (log w)
      ++ map (fun j => (Z.of_nat j + 1, max_retries config,
                        exn_message (error_of j)))
             (seq 0 (Z.to_nat (max_retries config)))
    /\ exists records,
         log (snd (predict chat config prompt w))
         = records ++ [(ERROR, MaxRetriesExceeded)].
Proof.
  intros chat config prompt w error_of Hpos Hfail. unfold predict, range.
  replace (Z.to_nat (max_retries config))
    with (S (Z.to_nat (max_retries config) - 1)) by lia.
  apply (predict_loop_all_fail_log chat config prompt error_of
           (Z.to_nat (max_retries config) - 1) 0 w).
  - lia.
  - intros j Hj. apply Hfail. lia.
Qed.

Lemma predict_logs_every_failure_witness :
  attempt_warnings
    (log (snd (predict refusing_chat (llama 2) (py "Which one?")
                 initial_world)))
  = [(1, 2, "connection refused"%string);
     (2, 2, "connection refused"%string)].
Proof.
  apply (proj1 (predict_logs_every_failure refusing_chat (llama 2)
                  (py "Which one?") initial_world
                  (fun _ => BackendException "connection refused")
                  ltac:(simpl; lia)
                  (fun attempt _ =>
                     conj (fun w _ => eq_refl) eq_refl))).
Defined.

(* ================================================================== *)
(** * Extraction: the letter case of the response *)
(* ================================================================== *)

Lemma same_up_to_case_tolower (c c' : codepoint) :
  same_up_to_case c c' -> unicode_tolower c' = unicode_tolower c.
Proof.
  intros [-> | [[H ->] | [H ->]]]; [reflexivity | |];
    unfold unicode_tolower;
    repeat match goal with
           | |- context [(?a <=? ?b)%N] => destruct (N.leb_spec a b)
           | |- context [(?a =? ?b)%N] => destruct (N.eqb_spec a b)
           end; simpl; lia.
Qed.

Lemma same_up_to_case_toupper (c c' : codepoint) :
  same_up_to_case c c' -> unicode_toupper c' = unicode_toupper c.
Proof.
  intros [-> | [[H ->] | [H ->]]]; [reflexivity | |];
    unfold unicode_toupper;
    repeat match goal with
           | |- context [(?a <=? ?b)%N] => destruct (N.leb_spec a b)
           | |- context [(?a =? ?b)%N] => destruct (N.eqb_spec a b)
           end; simpl; lia.
Qed.

Lemma same_up_to_case_isspace (c c' : codepoint) :
  same_up_to_case c c' -> isspace c' = isspace c.
Proof.
  intros [-> | [[H ->] | [H ->]]]; [reflexivity | |];
    apply eq_true_iff_eq; unfold isspace; bool_to_prop; lia.
Qed.

Lemma same_up_to_case_uncased (p c c' : codepoint) :
  unicode_iscased p = false ->
  same_up_to_case c c' -> (c' =? p)%N = (c =? p)%N.
Proof.
  intros Hp [-> | [[H ->] | [H ->]]]; [reflexivity | |];
    unfold unicode_iscased in Hp; apply orb_false_iff in Hp;
    destruct Hp as (Hl & Hu);
    apply negb_false_iff, N.eqb_eq in Hl;
    apply negb_false_iff, N.eqb_eq in Hu;
    unfold unicode_tolower in Hl; unfold unicode_toupper in Hu;
    apply eq_true_iff_eq; bool_to_prop;
    repeat match goal with
           | H : context [(?a <=? ?b)%N] |- _ => destruct (N.leb_spec a b)
           | H : context [(?a =? ?b)%N] |- _ => destruct (N.eqb_spec a b)
           end; simpl in *; lia.
Qed.

Lemma same_up_to_case_literal (p c c' : codepoint) :
  same_up_to_case c c' ->
  Re.literal_matches true p c' = Re.literal_matches true p c.
Proof.
  intros H. rewrite !literal_matches_ignorecase.
  destruct (unicode_iscased p) eqn:Hp.
  - rewrite (same_up_to_case_tolower c c' H). reflexivity.
  - apply same_up_to_case_uncased; assumption.
Qed.

Lemma same_up_to_case_charset (cs : Re.charset) (c c' : codepoint) :
  same_up_to_case c c' ->
  Re.charset_matches true cs c' = Re.charset_matches true cs c.
Proof.
  intros H. destruct cs as [p | lo hi |]; simpl.
  - apply same_up_to_case_literal. exact H.
  - induction (Re.codepoints_between lo hi) as [| p ps IH];
      [reflexivity |].
    simpl. rewrite IH, (same_up_to_case_literal p c c' H). reflexivity.
  - apply same_up_to_case_isspace. exact H.
Qed.

Lemma match_star_case (accepts : codepoint -> bool)
    (k : str -> option Re.groups) :
  (forall c c', same_up_to_case c c' -> accepts c' = accepts c) ->
  (forall t t', Forall2 same_up_to_case t t' -> same_match (k t) (k t')) ->
  forall s s',
    Forall2 same_up_to_case s s' ->
    same_match (Re.match_star accepts k s) (Re.match_star accepts k s').
Proof.
  intros Hacc Hk s s' H.
  induction H as [| c c' s s' Hc Hs IH]; simpl.
  - apply Hk. constructor.
  - assert (Hcons : same_match (k (c :: s)) (k (c' :: s')))
      by (apply Hk; constructor; assumption).
    rewrite (Hacc c c' Hc). destruct (accepts c); [| exact Hcons].
    destruct (Re.match_star accepts k s), (Re.match_star accepts k s');
      simpl in IH; try contradiction; [exact IH | exact Hcons].
Qed.

(** The engine matches two subjects that are the same up to case
    alike, and captures the same groups up to case. *)
Lemma match_here_case (re : Re.pattern) :
  forall s s',
    Forall2 same_up_to_case s s' ->
    same_match (Re.match_here true re s) (Re.match_here true re s').
Proof.
  induction re as [| [cs | cs | cs] re IH]; intros s s' H.
  - simpl. constructor.
  - simpl. destruct H as [| c c' s s' Hc Hs]; [exact I |].
    rewrite (same_up_to_case_charset cs c c' Hc).
    destruct (Re.charset_matches true cs c); [apply IH; exact Hs | exact I].
  - simpl. apply match_star_case; [| exact IH | exact H].
    intros c c' Hc. apply same_up_to_case_charset. exact Hc.
  - simpl. destruct H as [| c c' s s' Hc Hs]; [exact I |].
    rewrite (same_up_to_case_charset cs c c' Hc).
    destruct (Re.charset_matches true cs c); [| exact I].
    specialize (IH s s' Hs).
    destruct (Re.match_here true re s), (Re.match_here true re s');
      simpl in IH |- *; try contradiction; [| exact I].
    constructor; [| exact IH]. constructor; [exact Hc | constructor].
Qed.

Lemma search_case (re : Re.pattern) :
  forall s s',
    Forall2 same_up_to_case s s' ->
    same_match (Re.search true re s) (Re.search true re s').
Proof.
  intros s s' H. induction H as [| c c' s s' Hc Hs IH].
  - pose proof (match_here_case re [] [] (Forall2_nil _)) as M.
    simpl. destruct (Re.match_here true re []); exact M.
  - pose proof (match_here_case re (c :: s) (c' :: s')
                  (Forall2_cons _ _ Hc Hs)) as M.
    rewrite !search_cons.
    destruct (Re.match_here true re (c :: s)),
             (Re.match_here true re (c' :: s'));
      simpl in M; try contradiction; [exact M | exact IH].
Qed.

Lemma lstrip_case (s s' : str) :
  Forall2 same_up_to_case s s' ->
  Forall2 same_up_to_case (lstrip s) (lstrip s').
Proof.
  intros H. induction H as [| c c' s s' Hc Hs IH]; simpl; [constructor |].
  rewrite (same_up_to_case_isspace c c' Hc).
  destruct (isspace c); [exact IH | constructor; assumption].
Qed.

Lemma rev_case (s s' : str) :
  Forall2 same_up_to_case s s' ->
  Forall2 same_up_to_case (rev s) (rev s').
Proof.
  intros H. induction H as [| c c' s s' Hc Hs IH]; simpl; [constructor |].
  apply Forall2_app; [exact IH | constructor; [exact Hc | constructor]].
Qed.

Lemma strip_case (s s' : str) :
  Forall2 same_up_to_case s s' ->
  Forall2 same_up_to_case (strip s) (strip s').
Proof.
  intros H. unfold strip, rstrip.
  apply rev_case, lstrip_case, rev_case, lstrip_case. exact H.
Qed.

Lemma upper_case (s s' : str) :
  Forall2 same_up_to_case s s' -> upper s' = upper s.
Proof.
  intros H. induction H as [| c c' s s' Hc Hs IH]; simpl; [reflexivity |].
  rewrite IH, (same_up_to_case_toupper c c' Hc). reflexivity.
Qed.

(** X19: the letter case of a response does not matter: two responses
    that differ only in the case of ASCII letters extract alike, to the
    same answer or to the same failure. *)
Theorem extract_single_answer_caseless :
  forall (output output' : str),
    Forall2 same_up_to_case output output' ->
    extract_single_answer output' = extract_single_answer output.
Proof.
  intros output output' H. unfold extract_single_answer.
  pose proof (search_case FINAL_ANSWER _ _ (strip_case _ _ H)) as M.
  destruct (Re.search true FINAL_ANSWER (strip output)) as [g |],
           (Re.search true FINAL_ANSWER (strip output')) as [g' |];
    simpl in M; try contradiction; [| reflexivity].
  f_equal. unfold Re.group1.
  destruct M as [| x x' g g' Hx _]; [reflexivity |].
  simpl. apply upper_case. exact Hx.
Qed.

Lemma extract_single_answer_caseless_witness :
  extract_single_answer (py "fINAL answer: C")
  = extract_single_answer (py "Final Answer: c").
Proof.
  apply extract_single_answer_caseless.
  repeat (constructor;
          [first [ left; reflexivity
                 | right; left; split; [vm_compute; split; discriminate
                                       | reflexivity]
                 | right; right; split; [vm_compute; split; discriminate
                                        | reflexivity] ] |]).
  constructor.
Defined.
